(** * Dataset.py: vocabulary table, batch accumulator and batching engine

    A shallow embedding of [src/transformer/Dataset.py] (classes [Vocab],
    [Batch] and [Dataset]) and the properties of the batching engine.

    Conventions of the embedding:
    - Python [int] is [Z]; list positions produced by [range] are [nat];
    - a Python [list] is a [list], a [dict] with string keys is a
      [gmap string Z];
    - a raised exception is the [Raise] case of [result]; a generator is
      the list of the values it yields together with the exception, if any,
      that ends it ([gen]);
    - file contents are given as already read: a vocabulary file as the list
      of its lines, a corpus file as the list of its lines, each line as the
      list of tokens [l.split()] returns;
    - the two library calls whose outcome the source does not determine,
      [np.random.shuffle] and [np.argsort], are parameters of the engine. *)

From stdpp Require Import gmap strings list sorting.
From Stdlib Require Import ZArith Lia.

Local Open Scope Z_scope.

(** ** Exceptions and results *)

Inductive exn : Type :=
  | AssertionError (msg : string)
  | KeyError (key : string)
  | IndexError
  | ValueError
  | ZeroDivisionError
  | AttributeError.

Inductive result (A : Type) : Type :=
  | Ok (a : A)
  | Raise (e : exn).
Arguments Ok {A} a.
Arguments Raise {A} e.

Definition is_ok {A} (r : result A) : Prop := ∃ a, r = Ok a.
Definition is_raise {A} (r : result A) : Prop := ∃ e, r = Raise e.

#[global] Instance result_ret : MRet result := λ A a, Ok a.
#[global] Instance result_bind : MBind result := λ A B f r,
  match r with
  | Ok a => f a
  | Raise e => Raise e
  end.

(** [seq[i]] for a position [i] that is known to be non-negative. *)
Definition py_get {A} (l : list A) (i : nat) : result A :=
  match l !! i with
  | Some x => Ok x
  | None => Raise IndexError
  end.

(** [seq[i]] for an arbitrary integer: negative [i] counts from the end. *)
Definition py_index {A} (l : list A) (i : Z) : result A :=
  let n := Z.of_nat (length l) in
  let j := if i <? 0 then i + n else i in
  if (j <? 0) || (n <=? j) then Raise IndexError
  else py_get l (Z.to_nat j).

(** [[f(x) for x in l]] where [f] may raise. *)
Fixpoint list_comp {A B} (f : A → result B) (l : list A) : result (list B) :=
  match l with
  | [] => Ok []
  | x :: l' => y ← f x; ys ← list_comp f l'; Ok (y :: ys)
  end.

(** ** Vocab *)

Module Vocab.

Record t : Type := mk {
  idx_pad : Z;
  str_pad : string;
  idx_unk : Z;
  str_unk : string;
  idx_bos : Z;
  str_bos : string;
  idx_eos : Z;
  str_eos : string;
  tok_to_idx : gmap string Z;
  idx_to_tok : list string;
}.

(** [{k:i for i,k in enumerate(l)}], the counter starting at [i]: a later
    occurrence of a key overwrites an earlier one. *)
Fixpoint dict_of_enumerate (i : Z) (l : list string) (d : gmap string Z)
  : gmap string Z :=
  match l with
  | [] => d
  | k :: l' => dict_of_enumerate (i + 1) l' (<[k:=i]> d)
  end.

(** [assert d[s] == i, msg]: the subscript raises [KeyError] first when
    [s] is not a key. (The source's message also quotes the id found.) *)
Definition assert_id (d : gmap string Z) (s : string) (i : Z) (msg : string)
  : result unit :=
  match d !! s with
  | None => Raise (KeyError s)
  | Some j => if j =? i then Ok () else Raise (AssertionError msg)
  end.

(** [Vocab.__init__], on the lines of the vocabulary file. *)
Definition init (lines : list string) : result t :=
  let i2t := lines in
  let t2i := dict_of_enumerate 0 i2t ∅ in
  _ ← assert_id t2i "<pad>" 0 "<pad> must exist in vocab with id=0";
  _ ← assert_id t2i "<unk>" 1 "<unk> must exist in vocab with id=1";
  _ ← assert_id t2i "<bos>" 2 "<bos> must exist in vocab with id=2";
  _ ← assert_id t2i "<eos>" 3 "<eos> must exist in vocab with id=3";
  Ok (mk 0 "<pad>" 1 "<unk>" 2 "<bos>" 3 "<eos>" t2i i2t).

(** [__len__] *)
Definition len (v : t) : Z := Z.of_nat (length (idx_to_tok v)).

(** [__contains__], [type(s) == int] branch. *)
Definition contains_int (v : t) (s : Z) : bool := s <? len v.

(** [__contains__], string branch. *)
Definition contains_str (v : t) (s : string) : bool :=
  bool_decide (is_Some (tok_to_idx v !! s)).

(** [__getitem__], [type(s) == int] branch. *)
Definition getitem_int (v : t) (s : Z) : result string :=
  py_index (idx_to_tok v) s.

(** [__getitem__], string branch. *)
Definition getitem_str (v : t) (s : string) : Z :=
  match tok_to_idx v !! s with
  | Some i => i
  | None => idx_unk v
  end.

(** The four marker strings, in id order. *)
Definition reserved : list string := ["<pad>"; "<unk>"; "<bos>"; "<eos>"].

(** Position of the last occurrence of [k] in [l]. *)
Fixpoint last_idx (k : string) (l : list string) : option nat :=
  match l with
  | [] => None
  | x :: l' =>
      match last_idx k l' with
      | Some j => Some (S j)
      | None => if decide (x = k) then Some 0%nat else None
      end
  end.

End Vocab.

(** ** Batch *)

Module Batch.

Record t : Type := mk {
  batch_size : Z;
  batch_type : string;
  Pos : list nat;
  max_lens : list Z;
}.

(** A [Batch] object. [__init__] sets [batch_size] and [batch_type] only:
    the attributes [Pos] and [max_lens] do not exist until the first
    [reset]. [Fresh] is the object as the constructor leaves it, [Ready] an
    object that has been reset at least once, whose state is a [t]. *)
Inductive obj : Type :=
  | Fresh (batch_size : Z) (batch_type : string)
  | Ready (b : t).

(** [Batch.__init__] *)
Definition init (batch_size : Z) (batch_type : string) : result obj :=
  if (batch_type =? "sentences")%string || (batch_type =? "tokens")%string
  then Ok (Fresh batch_size batch_type)
  else Raise (AssertionError "Bad -batch_type option").

(** [reset]: a new empty list and [[0] * n_files]. *)
Definition reset (b : t) (n_files : nat) : t :=
  mk (batch_size b) (batch_type b) [] (replicate n_files 0).

(** [__len__] *)
Definition len (b : t) : Z := Z.of_nat (length (Pos b)).

(** The loop of lines 67-69: [Ok false] is the [return False], [Ok true]
    falling out of the loop; [self.max_lens[i]] raises when [lens] is
    longer than [max_lens]. [k] is [len(self.Pos)+1]. *)
Fixpoint fits (max_lens lens : list Z) (k cap : Z) : result bool :=
  match lens with
  | [] => Ok true
  | l :: lens' =>
      match max_lens with
      | [] => Raise IndexError
      | m :: max_lens' =>
          if Z.max m l * k >? cap then Ok false
          else fits max_lens' lens' k cap
      end
  end.

(** The loop of lines 75-76, with the flag telling whether it ran to its
    end ([false]: [self.max_lens[i]] raised, the earlier entries stay
    updated). *)
Fixpoint update_max (max_lens lens : list Z) : list Z * bool :=
  match lens with
  | [] => (max_lens, true)
  | l :: lens' =>
      match max_lens with
      | [] => ([], false)
      | m :: max_lens' =>
          let '(ms, ok) := update_max max_lens' lens' in (Z.max m l :: ms, ok)
      end
  end.

(** [add]: the accumulator after the call and what the call returns. *)
Definition add (b : t) (pos : nat) (lens : list Z) : t * result bool :=
  let check :=
    if (batch_type b =? "tokens")%string
    then fits (max_lens b) lens (len b + 1) (batch_size b)
    else if len b =? batch_size b then Ok false else Ok true in
  match check with
  | Raise e => (b, Raise e)
  | Ok false => (b, Ok false)
  | Ok true =>
      let '(ms, ok) := update_max (max_lens b) lens in
      (mk (batch_size b) (batch_type b) (Pos b ++ [pos]) ms,
       if ok then Ok true else Raise IndexError)
  end.

(** [reset], [add] and [__len__] on an object in either state: [reset]
    creates the two attributes when they are missing; [add] and [__len__]
    read [self.Pos] or [self.max_lens] first, which raises on an object
    that was never reset. *)
Definition reset_of (o : obj) (n_files : nat) : t :=
  match o with
  | Fresh batch_size batch_type =>
      mk batch_size batch_type [] (replicate n_files 0)
  | Ready b => reset b n_files
  end.

Definition add_to (o : obj) (pos : nat) (lens : list Z) : obj * result bool :=
  match o with
  | Fresh _ _ => (o, Raise AttributeError)
  | Ready b => let '(b', r) := add b pos lens in (Ready b', r)
  end.

Definition len_of (o : obj) : result Z :=
  match o with
  | Fresh _ _ => Raise AttributeError
  | Ready b => Ok (len b)
  end.

End Batch.

(** Some side is over capacity once the candidate is counted in. *)
Definition over_capacity (b : Batch.t) (lens : list Z) : Prop :=
  ∃ i m l, Batch.max_lens b !! i = Some m ∧ lens !! i = Some l ∧
           Z.max m l * (Batch.len b + 1) > Batch.batch_size b.

(** The accumulator after an accepted [add]. *)
Definition accepted (b : Batch.t) (pos : nat) (lens : list Z) : Batch.t :=
  Batch.mk (Batch.batch_size b) (Batch.batch_type b) (Batch.Pos b ++ [pos])
           (zip_with Z.max (Batch.max_lens b) lens).

(** ** Dataset *)

(** What a generator does when run to its end: the values it yields, in
    order, and the exception that stops it, if one does. *)
Definition gen (A : Type) : Type := (list A * option exn)%type.

(** [range(0, stop, step)] *)
Definition py_range_step (stop : nat) (step : Z) : result (list nat) :=
  if step =? 0 then Raise ValueError
  else if step <? 0 then Ok []
  else
    let k := Z.to_nat step in
    Ok ((λ j, j * k)%nat <$> seq 0 ((stop + k - 1) / k)%nat).

(** [max(l)] *)
Definition py_max (l : list Z) : result Z :=
  match l with
  | [] => Raise ValueError
  | x :: l' => Ok (foldl Z.max x l')
  end.

Module Dataset.

Record t : Type := mk {
  shard_size : Z;
  batch_size : Z;
  batch_type : string;
  max_length : Z;
  idx_bos : list Z;
  idx_eos : list Z;
  File_Line_Idx : list (list (list Z));
}.

(** One yielded value: [(batchs[i], idxs_all)]. *)
Definition item : Type := (list nat * list (list (list Z)))%type.

(** [self.File_Line_Idx[n][pos]] *)
Definition line (ds : t) (n pos : nat) : result (list Z) :=
  side ← py_get (File_Line_Idx ds) n; py_get side pos.

(** [[len(self.File_Line_Idx[n][pos]) for n in range(n_files)]] *)
Definition raw_lens (ds : t) (n_files pos : nat) : result (list Z) :=
  list_comp (λ n, l ← line ds n pos; Ok (Z.of_nat (length l))) (seq 0 n_files).

(** [[len(self.File_Line_Idx[n][pos])+2 for n in range(n_files)]] *)
Definition padded_lens (ds : t) (n_files pos : nat) : result (list Z) :=
  list_comp (λ n, l ← line ds n pos; Ok (Z.of_nat (length l) + 2))
            (seq 0 n_files).

Section engine.

(** [flatten_count] of [tools.Tools], which the sources do not include:
    the pair [(n_tok, n_unk)] it returns. *)
Variable flatten_count : list (list Z) → list Z → Z * Z.

(** [shuffle k l]: the order in which the [k]-th call of
    [np.random.shuffle] in a pass leaves the list [l]. *)
Variable shuffle : nat → list nat → list nat.

(** [np.argsort(l)], called with its default [kind]. *)
Variable argsort : list Z → list nat.

(** The loop of [Dataset.__init__], lines 94-107, from file number [i] on.
    [ftxts] holds the lines of each file as token lists. The existence test
    of lines 95-97 concerns the file system and is left out; of the log
    call only the division [100.0*n_unk/n_tok] is kept. *)
Fixpoint load (vocs : list Vocab.t) (i : nat) (ftxts : list (list (list string)))
    (bos eos : list Z) (F : list (list (list Z)))
    : result (list Z * list Z * list (list (list Z))) :=
  match ftxts with
  | [] => Ok (bos, eos, F)
  | ftxt :: rest =>
      voc ← py_get vocs i;
      let Line_Idx := (λ l : list string, Vocab.getitem_str voc <$> l) <$> ftxt in
      let F' := F ++ [Line_Idx] in
      let '(n_tok, n_unk) := flatten_count Line_Idx [Vocab.idx_unk voc] in
      if n_tok =? 0 then Raise ZeroDivisionError
      else if (length (default [] (head F')) =? length Line_Idx)%nat
      then load vocs (S i) rest (bos ++ [Vocab.idx_bos voc])
                (eos ++ [Vocab.idx_eos voc]) F'
      else Raise (AssertionError "Non parallel corpus in dataset")
  end.

(** [Dataset.__init__] *)
Definition init (ftxts : list (list (list string))) (vocs : list Vocab.t)
    (shard_size batch_size : Z) (batch_type : string) (max_length : Z)
    : result t :=
  '(bos, eos, F) ← load vocs 0 ftxts [] [] [];
  Ok (mk shard_size batch_size batch_type max_length bos eos F).

(** Lines 126-132: the filter loop over a shard, with the two lists it
    appends to. *)
Fixpoint build_shard (ds : t) (n_files : nat) (shard : list nat)
    (shard_pos : list nat) (shard_len : list Z)
    : result (list nat * list Z) :=
  match shard with
  | [] => Ok (shard_pos, shard_len)
  | pos :: rest =>
      skip ← (if max_length ds =? 0 then Ok false
              else ls ← raw_lens ds n_files pos;
                   maxl ← py_max ls;
                   Ok (maxl >? max_length ds));
      if (skip : bool) then build_shard ds n_files rest shard_pos shard_len
      else
        l0 ← line ds 0 pos;
        build_shard ds n_files rest (shard_pos ++ [pos])
                    (shard_len ++ [Z.of_nat (length l0)])
  end.

(** Lines 137-138: [shard_pos[np.argsort(shard_len)]] *)
Definition sort_shard (shard_pos : list nat) (shard_len : list Z)
    : result (list nat) :=
  list_comp (py_get shard_pos) (argsort shard_len).

(** Lines 143-149: the packing loop, with the accumulator [b] and the list
    [batchs] of the batches saved so far. The value the second [add]
    returns is not looked at. *)
Fixpoint pack (ds : t) (n_files : nat) (b : Batch.t) (batchs : list (list nat))
    (shard_pos : list nat) : result (Batch.t * list (list nat)) :=
  match shard_pos with
  | [] => Ok (b, batchs)
  | pos :: rest =>
      lens ← padded_lens ds n_files pos;
      let '(b1, r) := Batch.add b pos lens in
      match r with
      | Raise e => Raise e
      | Ok true => pack ds n_files b1 batchs rest
      | Ok false =>
          let '(b2, batchs2) :=
            if Batch.len b1 =? 0 then (b1, batchs)
            else (Batch.reset b1 n_files, batchs ++ [Batch.Pos b1]) in
          let '(b3, r3) := Batch.add b2 pos lens in
          match r3 with
          | Raise e => Raise e
          | Ok _ => pack ds n_files b3 batchs2 rest
          end
      end
  end.

(** Lines 140-152: the batches of a sorted shard. *)
Definition build_batchs (ds : t) (n_files : nat) (shard_pos : list nat)
    : result (list (list nat)) :=
  b ← Batch.init (batch_size ds) (batch_type ds);
  '(b', batchs) ← pack ds n_files (Batch.reset_of b n_files) [] shard_pos;
  Ok (if Batch.len b' =? 0 then batchs else batchs ++ [Batch.Pos b']).

(** Line 165: [[self.idx_bos[n]] + self.File_Line_Idx[n][pos] + [self.idx_eos[n]]] *)
Definition wrap (ds : t) (n pos : nat) : result (list Z) :=
  bos ← py_get (idx_bos ds) n;
  l ← line ds n pos;
  eos ← py_get (idx_eos ds) n;
  Ok ([bos] ++ l ++ [eos]).

(** Lines 161-166: [idxs_all] of one batch. *)
Definition idxs_all (ds : t) (n_files : nat) (batch : list nat)
    : result (list (list (list Z))) :=
  list_comp (λ n, list_comp (wrap ds n) batch) (seq 0 n_files).

(** Lines 160-167: the loop that yields the batches in the order
    [idx_batchs]. *)
Fixpoint yield_batchs (ds : t) (n_files : nat) (batchs : list (list nat))
    (idx_batchs : list nat) : gen item :=
  match idx_batchs with
  | [] => ([], None)
  | i :: rest =>
      match (batch ← py_get batchs i;
             all ← idxs_all ds n_files batch;
             Ok (batch, all)) with
      | Raise e => ([], Some e)
      | Ok y =>
          let '(ys, e) := yield_batchs ds n_files batchs rest in (y :: ys, e)
      end
  end.

(** Lines 121-167: the body of the loop over shards, for shard number [s]. *)
Definition do_shard (ds : t) (n_files : nat) (s : nat) (shard : list nat)
    : gen item :=
  match ('(shard_pos, shard_len) ← build_shard ds n_files shard [] [];
         sorted ← sort_shard shard_pos shard_len;
         build_batchs ds n_files sorted) with
  | Raise e => ([], Some e)
  | Ok batchs =>
      yield_batchs ds n_files batchs
                   (shuffle (S s) (seq 0 (length batchs)))
  end.

(** Line 120: the loop over the shards, from shard number [s] on. *)
Fixpoint run_shards (ds : t) (n_files : nat) (s : nat)
    (shards : list (list nat)) : gen item :=
  match shards with
  | [] => ([], None)
  | shard :: rest =>
      match do_shard ds n_files s shard with
      | (ys, Some e) => (ys, Some e)
      | (ys, None) =>
          let '(ys', e) := run_shards ds n_files (S s) rest in (ys ++ ys', e)
      end
  end.

(** The value [self.shard_size] has after lines 116-117 (the assignment
    stays in the object for later passes). *)
Definition shard_size_of (ds : t) (n_lines : nat) : Z :=
  if shard_size ds =? 0 then Z.of_nat n_lines else shard_size ds.

(** Line 118: [[Pos[i:i+self.shard_size] for i in range(0, n_lines, self.shard_size)]] *)
Definition split_shards (Pos : list nat) (n_lines : nat) (size : Z)
    : result (list (list nat)) :=
  match py_range_step n_lines size with
  | Raise e => Raise e
  | Ok starts => Ok ((λ i, take (Z.to_nat size) (drop i Pos)) <$> starts)
  end.

(** [Dataset.__iter__], run to its end. *)
Definition iter (ds : t) : gen item :=
  match File_Line_Idx ds with
  | [] => ([], Some (AssertionError "Empty dataset"))
  | side0 :: _ =>
      let n_files := length (File_Line_Idx ds) in
      let n_lines := length side0 in
      let Pos := shuffle 0 (seq 0 n_lines) in
      match split_shards Pos n_lines (shard_size_of ds n_lines) with
      | Raise e => ([], Some e)
      | Ok shards => run_shards ds n_files 0 shards
      end
  end.

End engine.

End Dataset.

(** ** Contracts and instances of the library calls *)

(** The keys [l[i]] at the positions [idx]. *)
Definition keys_of (l : list Z) (idx : list nat) : list Z :=
  (λ i, default 0 (l !! i)) <$> idx.

(** What [np.argsort(l)] returns whatever its [kind]: the positions of [l],
    each once, in an order in which the keys do not decrease. *)
Definition is_argsort (argsort : list Z → list nat) : Prop :=
  ∀ l, argsort l ≡ₚ seq 0 (length l) ∧ Sorted Z.le (keys_of l (argsort l)).

(** What [np.random.shuffle] does: it reorders its argument. *)
Definition is_shuffle (shuffle : nat → list nat → list nat) : Prop :=
  ∀ k l, shuffle k l ≡ₚ l.

(** Insertion of the position [i] in front of the first position [j] of
    [idx] for which [before (key i) (key j)]. *)
Fixpoint insert_by (before : Z → Z → bool) (key : nat → Z) (i : nat)
    (idx : list nat) : list nat :=
  match idx with
  | [] => [i]
  | j :: idx' =>
      if before (key i) (key j) then i :: idx
      else j :: insert_by before key i idx'
  end.

(** Insertion sort of the positions of [l] by key. *)
Definition argsort_by (before : Z → Z → bool) (l : list Z) : list nat :=
  foldr (insert_by before (λ i, default 0 (l !! i))) [] (seq 0 (length l)).

(** An argsort that keeps equal keys in their order, and one that
    reverses them. *)
Definition argsort_stable : list Z → list nat := argsort_by Z.leb.
Definition argsort_reversing : list Z → list nat := argsort_by Z.ltb.

(** Two outcomes of the shuffles: nothing moves; every list is reversed. *)
Definition shuffle_id : nat → list nat → list nat := λ _ l, l.
Definition shuffle_rev : nat → list nat → list nat := λ _ l, reverse l.

(** Modelled from the spec: [tools.Tools.flatten_count] is not among the
    sources; the spec has the constructor log per-side token/unknown-token
    statistics, so the pair is the number of ids in the side and the number
    of those that are in [lc]. *)
Definition flatten_count (ll : list (list Z)) (lc : list Z) : Z * Z :=
  let flat := concat ll in
  (Z.of_nat (length flat),
   Z.of_nat (length (filter (λ x, x ∈ lc) flat))).



(** ** Sample data *)

(** The vocabulary of the spec's scenario, as [Vocab.__init__] builds it. *)
Definition vocab_ab : Vocab.t :=
  let lines := ["<pad>"; "<unk>"; "<bos>"; "<eos>"; "a"; "b"] in
  Vocab.mk 0 "<pad>" 1 "<unk>" 2 "<bos>" 3 "<eos>"
           (Vocab.dict_of_enumerate 0 lines ∅) lines.

Definition vocab_xy : Vocab.t :=
  let lines := ["<pad>"; "<unk>"; "<bos>"; "<eos>"; "x"; "y"] in
  Vocab.mk 0 "<pad>" 1 "<unk>" 2 "<bos>" 3 "<eos>"
           (Vocab.dict_of_enumerate 0 lines ∅) lines.

(** ** Notions used to state the properties of the engine *)

(** The line at position [pos] of side [n], and its raw length. *)
Definition line_at (ds : Dataset.t) (n pos : nat) : list Z :=
  default [] (Dataset.File_Line_Idx ds !! n ≫= λ side, side !! pos).

Definition len_at (ds : Dataset.t) (n pos : nat) : Z :=
  Z.of_nat (length (line_at ds n pos)).

Definition n_files (ds : Dataset.t) : nat := length (Dataset.File_Line_Idx ds).

(** What [Dataset.__init__] leaves behind: every side has [n_lines] lines
    and one begin and one end marker id is recorded per side. *)
Record well_formed (ds : Dataset.t) (n_lines : nat) : Prop := {
  wf_parallel : Forall (λ side, length side = n_lines) (Dataset.File_Line_Idx ds);
  wf_bos : length (Dataset.idx_bos ds) = n_files ds;
  wf_eos : length (Dataset.idx_eos ds) = n_files ds;
}.

(** The capacity policy is one of the two the accumulator knows. *)
Definition valid_policy (ds : Dataset.t) : Prop :=
  Dataset.batch_type ds = "sentences" ∨ Dataset.batch_type ds = "tokens".

(** The example at [pos] passes the length filter: no filter is set, or no
    side is longer than [max_length]. *)
Definition keep (ds : Dataset.t) (pos : nat) : bool :=
  (Dataset.max_length ds =? 0) ||
  forallb (λ n, len_at ds n pos <=? Dataset.max_length ds) (seq 0 (n_files ds)).

(** The example at [pos] is accepted by an empty accumulator: under the
    token policy its padded length is within the capacity on every side,
    under the sentence policy the capacity is not zero. *)
Definition fits_alone (ds : Dataset.t) (pos : nat) : bool :=
  if (Dataset.batch_type ds =? "tokens")%string
  then forallb (λ n, len_at ds n pos + 2 <=? Dataset.batch_size ds)
               (seq 0 (n_files ds))
  else negb (0 =? Dataset.batch_size ds).

(** The list [lens] the packing loop computes for [pos]. *)
Definition lens_of (ds : Dataset.t) (pos : nat) : list Z :=
  (λ n, len_at ds n pos + 2) <$> seq 0 (n_files ds).

(** The positions of [shard] that pass the length filter and fit alone. *)
Definition emitted (ds : Dataset.t) (shard : list nat) : list nat :=
  filter (λ pos, fits_alone ds pos) (filter (λ pos, keep ds pos) shard).

(** The largest raw length on side [n] among the examples [P]. *)
Definition max_raw (ds : Dataset.t) (n : nat) (P : list nat) : Z :=
  foldr (λ pos acc, Z.max (len_at ds n pos) acc) 0 P.

(** The running maximum the accumulator holds for side [n] after it has
    accepted the examples [P]. *)
Definition max_padded (ds : Dataset.t) (n : nat) (P : list nat) : Z :=
  foldl (λ acc pos, Z.max acc (len_at ds n pos + 2)) 0 P.

(** The capacity bound on a list of accepted examples. *)
Definition within_capacity (ds : Dataset.t) (P : list nat) : Prop :=
  if (Dataset.batch_type ds =? "tokens")%string
  then ∀ n, (n < n_files ds)%nat →
         max_padded ds n P * Z.of_nat (length P) ≤ Dataset.batch_size ds
  else 0 ≤ Dataset.batch_size ds → Z.of_nat (length P) ≤ Dataset.batch_size ds.

(** The state of the accumulator between two steps of the packing loop. *)
Record acc_inv (ds : Dataset.t) (b : Batch.t) : Prop := {
  acc_size : Batch.batch_size b = Dataset.batch_size ds;
  acc_type : Batch.batch_type b = Dataset.batch_type ds;
  acc_max : Batch.max_lens b =
            (λ n, max_padded ds n (Batch.Pos b)) <$> seq 0 (n_files ds);
  acc_bound : Batch.Pos b ≠ [] → within_capacity ds (Batch.Pos b);
  acc_alone : Forall (λ pos, fits_alone ds pos) (Batch.Pos b);
}.

(** A saved batch: not empty, within capacity, of examples that fit alone. *)
Definition saved_batch (ds : Dataset.t) (P : list nat) : Prop :=
  P ≠ [] ∧ within_capacity ds P ∧ Forall (λ pos, fits_alone ds pos) P.

(** The id sequence emitted for the line at [pos] of side [n]. *)
Definition wrapped (ds : Dataset.t) (n pos : nat) : list Z :=
  [default 0 (Dataset.idx_bos ds !! n)] ++ line_at ds n pos ++
  [default 0 (Dataset.idx_eos ds !! n)].

(** The value yielded for the batch [P]. *)
Definition item_of (ds : Dataset.t) (P : list nat) : Dataset.item :=
  (P, (λ n, wrapped ds n <$> P) <$> seq 0 (n_files ds)).

(** The ids [Dataset.__init__] stores for a file read with [voc]. *)
Definition encode (voc : Vocab.t) (ftxt : list (list string)) : list (list Z) :=
  (λ l : list string, Vocab.getitem_str voc <$> l) <$> ftxt.

(** [after] keeps the order [before] has among the positions whose keys
    are equal. *)
Definition keeps_tie_order (key : nat → Z) (before after : list nat) : Prop :=
  ∀ a b p q, before !! a = Some p → before !! b = Some q → (a < b)%nat →
    key p = key q →
    ∃ a' b', after !! a' = Some p ∧ after !! b' = Some q ∧ (a' < b')%nat.

(** The corpus of the spec's scenarios: side 0 holds the lines [a b] and
    [b], side 1 the lines [x y] and [y]. *)
Definition corpus_ab : list (list (list string)) :=
  [[["a"; "b"]; ["b"]]; [["x"; "y"]; ["y"]]].

(** The engine [Dataset.__init__] builds from [corpus_ab] with one shard
    and no length filter. *)
Definition ds_scenario (batch_type : string) (batch_size : Z) : Dataset.t :=
  Dataset.mk 0 batch_size batch_type 0 [2; 2] [3; 3]
             [[[4; 5]; [5]]; [[4; 5]; [5]]].

(** An engine with one side that has no line, and the default options. *)
Definition ds_no_lines : Dataset.t :=
  Dataset.mk 500000 4096 "tokens" 100 [2] [3] [[]].

(** A corpus of one file whose first two lines have the same length, and
    the engine [Dataset.__init__] builds from it with the default capacity
    and length filter and a single shard. *)
Definition corpus_ties : list (list (list string)) :=
  [[["a"; "b"; "a"]; ["b"; "a"; "b"]; ["a"]; ["a"; "b"]]].

Definition ds_ties : Dataset.t :=
  Dataset.mk 0 4096 "tokens" 100 [2] [3]
             [[[4; 5; 4]; [5; 4; 5]; [4]; [4; 5]]].

(** * Properties *)

(** ** Results and list comprehensions *)

Lemma py_get_lookup {A} (l : list A) i x : l !! i = Some x → py_get l i = Ok x.
Proof. unfold py_get. by intros ->. Qed.

Lemma py_get_Ok {A} (l : list A) i x : py_get l i = Ok x → l !! i = Some x.
Proof. unfold py_get. by destruct (l !! i); intros [=->]. Qed.

Lemma list_comp_fmap {A B} (f : A → result B) (g : A → B) l :
  Forall (λ x, f x = Ok (g x)) l → list_comp f l = Ok (g <$> l).
Proof.
  induction 1 as [|x l Hx _ IH]; simpl; [done|]. by rewrite Hx, IH.
Qed.

Lemma list_comp_Ok_Forall2 {A B} (f : A → result B) l ys :
  list_comp f l = Ok ys → Forall2 (λ x y, f x = Ok y) l ys.
Proof.
  revert ys. induction l as [|x l IH]; simpl; intros ys.
  - intros [=<-]. constructor.
  - destruct (f x) as [y|] eqn:Hy; simpl; [|done].
    destruct (list_comp f l) as [ys'|]; simpl; [|done].
    intros [=<-]. constructor; auto.
Qed.

Lemma fmap_lookup_seq {A} (d : A) (l : list A) :
  (λ i, default d (l !! i)) <$> seq 0 (length l) = l.
Proof.
  apply list_eq. intros i. rewrite list_lookup_fmap.
  destruct (decide (i < length l)%nat) as [Hlt|Hge].
  - rewrite lookup_seq_lt by done. simpl.
    destruct (lookup_lt_is_Some_2 l i Hlt) as [x Hx]. by rewrite Hx.
  - rewrite lookup_seq_ge by lia. simpl. symmetry. apply lookup_ge_None. lia.
Qed.

(** ** Vocab *)

Lemma lookup_dict_of_enumerate l i d k :
  Vocab.dict_of_enumerate i l d !! k =
    match Vocab.last_idx k l with
    | Some j => Some (i + Z.of_nat j)
    | None => d !! k
    end.
Proof.
  revert i d. induction l as [|x l IH]; intros i d; simpl; [done|].
  rewrite IH. destruct (Vocab.last_idx k l) as [j|].
  - f_equal. lia.
  - destruct (decide (x = k)) as [->|Hne].
    + rewrite lookup_insert_eq. f_equal. lia.
    + by rewrite lookup_insert_ne.
Qed.

Lemma last_idx_None k l : Vocab.last_idx k l = None ↔ k ∉ l.
Proof.
  induction l as [|x l IH]; simpl.
  - split; [intros _; apply not_elem_of_nil | done].
  - rewrite not_elem_of_cons. destruct (Vocab.last_idx k l) as [j|].
    + split; [done|]. intros [_ Hl]. by apply IH in Hl.
    + destruct (decide (x = k)) as [->|Hne].
      * split; [done|]. by intros [? _].
      * split; [|done]. intros _. split; [done|]. by apply IH.
Qed.

Lemma last_idx_Some k l j :
  Vocab.last_idx k l = Some j ↔ l !! j = Some k ∧ k ∉ drop (S j) l.
Proof.
  revert j. induction l as [|x l IH]; intros j; simpl.
  - split; [done|]. by intros [? _].
  - destruct (Vocab.last_idx k l) as [j'|] eqn:Hl.
    + split.
      * intros [=<-]. simpl. by apply IH.
      * intros [Hj Hd]. destruct j as [|j]; simpl in *.
        -- destruct (IH j') as [[Hj' _] _]; [done|].
           exfalso. apply Hd. rewrite drop_0. by eapply list_elem_of_lookup_2.
        -- assert (Some j' = Some j) as [=->] by (by apply IH). done.
    + apply last_idx_None in Hl.
      destruct (decide (x = k)) as [->|Hne].
      * split.
        -- intros [=<-]. simpl. by rewrite drop_0.
        -- intros [Hj _]. destruct j as [|j]; [done|]. simpl in Hj.
           exfalso. apply Hl. by eapply list_elem_of_lookup_2.
      * split; [done|]. intros [Hj _]. destruct j as [|j]; simpl in Hj.
        -- by injection Hj.
        -- exfalso. apply Hl. by eapply list_elem_of_lookup_2.
Qed.

Lemma assert_id_Ok l s i msg :
  Vocab.assert_id (Vocab.dict_of_enumerate 0 l ∅) s (Z.of_nat i) msg = Ok ()
  ↔ Vocab.last_idx s l = Some i.
Proof.
  unfold Vocab.assert_id. rewrite lookup_dict_of_enumerate, lookup_empty.
  destruct (Vocab.last_idx s l) as [j|]; [|done].
  destruct (Z.eqb_spec (0 + Z.of_nat j) (Z.of_nat i)).
  - split; [|done]. intros _. f_equal. lia.
  - split; [done|]. intros [=->]. lia.
Qed.

(** Construction succeeds exactly when the last occurrence of each marker
    is at its reserved position. *)
Lemma init_ok_iff l :
  is_ok (Vocab.init l) ↔
    Vocab.last_idx "<pad>" l = Some 0%nat ∧ Vocab.last_idx "<unk>" l = Some 1%nat ∧
    Vocab.last_idx "<bos>" l = Some 2%nat ∧ Vocab.last_idx "<eos>" l = Some 3%nat.
Proof.
  rewrite <- (assert_id_Ok l "<pad>" 0 "<pad> must exist in vocab with id=0").
  rewrite <- (assert_id_Ok l "<unk>" 1 "<unk> must exist in vocab with id=1").
  rewrite <- (assert_id_Ok l "<bos>" 2 "<bos> must exist in vocab with id=2").
  rewrite <- (assert_id_Ok l "<eos>" 3 "<eos> must exist in vocab with id=3").
  unfold Vocab.init, is_ok. simpl Z.of_nat.
  destruct (Vocab.assert_id _ "<pad>" _ _) as [[]|]; simpl;
    [|split; [by intros [? ?]|by intros [? _]]].
  destruct (Vocab.assert_id _ "<unk>" _ _) as [[]|]; simpl;
    [|split; [by intros [? ?]|by intros (_ & ? & _)]].
  destruct (Vocab.assert_id _ "<bos>" _ _) as [[]|]; simpl;
    [|split; [by intros [? ?]|by intros (_ & _ & ? & _)]].
  destruct (Vocab.assert_id _ "<eos>" _ _) as [[]|]; simpl;
    [|split; [by intros [? ?]|by intros (_ & _ & _ & ?)]].
  split; [done|]. intros _. eauto.
Qed.

Lemma init_fields l v :
  Vocab.init l = Ok v →
  Vocab.idx_to_tok v = l ∧ Vocab.tok_to_idx v = Vocab.dict_of_enumerate 0 l ∅ ∧
  Vocab.idx_unk v = 1 ∧ Vocab.idx_bos v = 2 ∧ Vocab.idx_eos v = 3.
Proof.
  unfold Vocab.init.
  destruct (Vocab.assert_id _ "<pad>" _ _) as [[]|]; simpl; [|done].
  destruct (Vocab.assert_id _ "<unk>" _ _) as [[]|]; simpl; [|done].
  destruct (Vocab.assert_id _ "<bos>" _ _) as [[]|]; simpl; [|done].
  destruct (Vocab.assert_id _ "<eos>" _ _) as [[]|]; simpl; [|done].
  by intros [=<-].
Qed.

Lemma result_ok_or_raise {A} (r : result A) : is_ok r ∨ is_raise r.
Proof. destruct r; [left|right]; eexists; done. Qed.

(** C6. Vocabulary construction raises for every list of lines whose first
    four entries are not the pad, unknown, begin and end markers in that
    order (a list of fewer than four lines included); on a list of distinct
    lines that starts with the four markers it succeeds and keeps the lines
    as the id-to-token table. *)
Theorem C6_vocab_init_markers (lines : list string) :
  (take 4 lines ≠ Vocab.reserved → is_raise (Vocab.init lines)) ∧
  (NoDup lines → take 4 lines = Vocab.reserved →
   ∃ v, Vocab.init lines = Ok v ∧ Vocab.idx_to_tok v = lines).
Proof.
  split.
  - intros Hne. destruct (result_ok_or_raise (Vocab.init lines)) as [Hok|]; [|done].
    exfalso. apply Hne. apply init_ok_iff in Hok as (H0 & H1 & H2 & H3).
    apply last_idx_Some in H0 as [H0 _], H1 as [H1 _], H2 as [H2 _], H3 as [H3 _].
    destruct lines as [|a [|b [|c [|d rest]]]]; try done.
    simpl in *. injection H0 as ->. injection H1 as ->.
    injection H2 as ->. injection H3 as ->. by rewrite take_0.
  - intros Hnd Htake.
    destruct lines as [|a [|b [|c [|d rest]]]]; try done.
    injection Htake as -> -> -> ->.
    assert (is_ok (Vocab.init ("<pad>" :: "<unk>" :: "<bos>" :: "<eos>" :: rest)))
      as [v Hv].
    { apply init_ok_iff.
      apply NoDup_cons in Hnd as [Ha Hnd]. apply NoDup_cons in Hnd as [Hb Hnd].
      apply NoDup_cons in Hnd as [Hc Hnd]. apply NoDup_cons in Hnd as [Hd Hnd].
      rewrite !last_idx_Some. simpl. rewrite drop_0.
      repeat split; try done; set_solver. }
    exists v. split; [done|]. by apply init_fields in Hv as [? _].
Qed.

Lemma C6_vocab_init_markers_witness :
  is_raise (Vocab.init ["<pad>"; "<unk>"; "<eos>"; "<bos>"; "a"]) ∧
  ∃ v, Vocab.init ["<pad>"; "<unk>"; "<bos>"; "<eos>"; "a"; "b"] = Ok v ∧
       Vocab.idx_to_tok v = ["<pad>"; "<unk>"; "<bos>"; "<eos>"; "a"; "b"].
Proof.
  split.
  - apply (C6_vocab_init_markers ["<pad>"; "<unk>"; "<eos>"; "<bos>"; "a"]).
    by vm_compute.
  - apply (C6_vocab_init_markers ["<pad>"; "<unk>"; "<bos>"; "<eos>"; "a"; "b"]).
    + apply (bool_decide_unpack _). by vm_compute.
    + reflexivity.
Defined.

Lemma py_index_nat {A} (l : list A) (j : nat) x :
  l !! j = Some x → py_index l (Z.of_nat j) = Ok x.
Proof.
  intros Hj. pose proof (lookup_lt_Some _ _ _ Hj) as Hlt. unfold py_index.
  destruct (Z.ltb_spec (Z.of_nat j) 0) as [|_]; [lia|].
  destruct (Z.ltb_spec (Z.of_nat j) 0) as [|_]; [lia|].
  destruct (Z.leb_spec (Z.of_nat (length l)) (Z.of_nat j)) as [|_]; [lia|].
  simpl. rewrite Nat2Z.id. by apply py_get_lookup.
Qed.

(** C10. The integer branch of [__contains__] answers [n < size] and
    nothing else, so every negative [n] is reported as contained; and for
    [-size <= n < 0] the integer branch of [__getitem__] returns the entry
    at position [size + n]. *)
Theorem C10_contains_int_no_lower_bound (v : Vocab.t) (n : Z) :
  (Vocab.contains_int v n = true ↔ n < Vocab.len v) ∧
  (n < 0 → Vocab.contains_int v n = true) ∧
  (- Vocab.len v ≤ n < 0 →
   ∃ tok, Vocab.idx_to_tok v !! Z.to_nat (Vocab.len v + n) = Some tok ∧
          Vocab.getitem_int v n = Ok tok).
Proof.
  unfold Vocab.contains_int, Vocab.getitem_int, Vocab.len.
  split; [apply Z.ltb_lt|]. split.
  - intros Hn. apply Z.ltb_lt. lia.
  - intros [Hlo Hhi].
    destruct (lookup_lt_is_Some_2 (Vocab.idx_to_tok v)
                (Z.to_nat (Z.of_nat (length (Vocab.idx_to_tok v)) + n)))
      as [tok Htok]; [lia|].
    exists tok. split; [done|]. unfold py_index.
    destruct (Z.ltb_spec n 0) as [_|]; [|lia].
    destruct (Z.ltb_spec (n + Z.of_nat (length (Vocab.idx_to_tok v))) 0); [lia|].
    destruct (Z.leb_spec (Z.of_nat (length (Vocab.idx_to_tok v)))
                (n + Z.of_nat (length (Vocab.idx_to_tok v)))); [lia|].
    simpl. apply py_get_lookup. by rewrite Z.add_comm.
Qed.

Lemma C10_contains_int_no_lower_bound_witness :
  Vocab.contains_int vocab_ab (-1) = true ∧
  ∃ tok, Vocab.idx_to_tok vocab_ab !! Z.to_nat (Vocab.len vocab_ab + -1) = Some tok ∧
         Vocab.getitem_int vocab_ab (-1) = Ok tok.
Proof.
  split.
  - apply (C10_contains_int_no_lower_bound vocab_ab (-1)). lia.
  - apply (C10_contains_int_no_lower_bound vocab_ab (-1)).
    unfold Vocab.len. simpl. lia.
Defined.

(** A table built by [Vocab.__init__] maps the id of a token it contains
    back to the token. *)
Lemma getitem_roundtrip lines v tok :
  Vocab.init lines = Ok v → Vocab.contains_str v tok = true →
  Vocab.getitem_int v (Vocab.getitem_str v tok) = Ok tok.
Proof.
  intros (Hl & Hd & _)%init_fields Hin.
  unfold Vocab.contains_str in Hin. apply bool_decide_eq_true in Hin as [i Hi].
  unfold Vocab.getitem_int, Vocab.getitem_str. rewrite Hi, Hl.
  rewrite Hd, lookup_dict_of_enumerate, lookup_empty in Hi.
  destruct (Vocab.last_idx tok lines) as [j|] eqn:Hj; [|done].
  injection Hi as <-. apply last_idx_Some in Hj as [Hj _].
  rewrite Z.add_0_l. by apply py_index_nat.
Qed.

(** ** Batch *)

Lemma fits_Forall2 ms ls k cap :
  length ls = length ms →
  Batch.fits ms ls k cap =
    Ok (bool_decide (Forall2 (λ m l, Z.max m l * k ≤ cap) ms ls)).
Proof.
  revert ms. induction ls as [|l ls IH]; intros [|m ms] Hlen; try done.
  simpl in *. destruct (Z.gtb_spec (Z.max m l * k) cap) as [Hgt|Hle].
  - rewrite bool_decide_eq_false_2; [done|].
    intros H. apply Forall2_cons in H as [? _]. lia.
  - rewrite IH by lia. f_equal. apply bool_decide_ext.
    rewrite Forall2_cons. tauto.
Qed.

Lemma update_max_zip ms ls :
  length ls = length ms → Batch.update_max ms ls = (zip_with Z.max ms ls, true).
Proof.
  revert ms. induction ls as [|l ls IH]; intros [|m ms] Hlen; try done.
  simpl in *. by rewrite IH by lia.
Qed.

Lemma not_Forall2_lookup {A B} (R : A → B → Prop) `{!∀ a b, Decision (R a b)}
    (ms : list A) (ls : list B) :
  length ls = length ms → ¬ Forall2 R ms ls →
  ∃ i m l, ms !! i = Some m ∧ ls !! i = Some l ∧ ¬ R m l.
Proof.
  intros Hlen Hno. revert ls Hlen Hno.
  induction ms as [|m ms IH]; intros [|l ls] Hlen Hno; try done.
  - destruct Hno. constructor.
  - destruct (decide (R m l)) as [HR|HR].
    + destruct (IH ls) as (i & m' & l' & ? & ? & ?).
      * simpl in Hlen. lia.
      * intros HF. apply Hno. by constructor.
      * by exists (S i), m', l'.
    + by exists 0%nat, m, l.
Qed.

Lemma over_capacity_Forall2 b lens :
  length lens = length (Batch.max_lens b) →
  over_capacity b lens ↔
  ¬ Forall2 (λ m l, Z.max m l * (Batch.len b + 1) ≤ Batch.batch_size b)
            (Batch.max_lens b) lens.
Proof.
  intros Hlen. split.
  - intros (i & m & l & Hm & Hl & Hgt) H.
    rewrite Forall2_lookup in H. specialize (H i).
    rewrite Hm, Hl in H. inversion H; subst. lia.
  - intros HF. apply not_Forall2_lookup in HF as (i & m & l & ? & ? & ?).
    + exists i, m, l. repeat split; [done..|lia].
    + apply _.
    + done.
Qed.

Lemma add_tokens b pos lens :
  Batch.batch_type b = "tokens" → length lens = length (Batch.max_lens b) →
  Batch.add b pos lens =
    if bool_decide (Forall2 (λ m l, Z.max m l * (Batch.len b + 1) ≤ Batch.batch_size b)
                            (Batch.max_lens b) lens)
    then (accepted b pos lens, Ok true) else (b, Ok false).
Proof.
  intros Hty Hlen. unfold Batch.add. rewrite Hty. simpl.
  rewrite fits_Forall2 by done.
  destruct (bool_decide _); [|done].
  rewrite update_max_zip by done. unfold accepted. by rewrite Hty.
Qed.

Lemma add_sentences b pos lens :
  Batch.batch_type b ≠ "tokens" → length lens = length (Batch.max_lens b) →
  Batch.add b pos lens =
    if bool_decide (Batch.len b = Batch.batch_size b)
    then (b, Ok false) else (accepted b pos lens, Ok true).
Proof.
  intros Hty Hlen. unfold Batch.add.
  rewrite (proj2 (String.eqb_neq _ _) Hty).
  destruct (Z.eqb_spec (Batch.len b) (Batch.batch_size b)).
  - by rewrite bool_decide_eq_true_2.
  - rewrite bool_decide_eq_false_2 by done. by rewrite update_max_zip.
Qed.

(** ** Dataset: reading the corpus *)

Section corpus.

Context (ds : Dataset.t) (n_lines : nat) (Hwf : well_formed ds n_lines).

Lemma line_Ok n pos :
  (n < n_files ds)%nat → (pos < n_lines)%nat →
  Dataset.line ds n pos = Ok (line_at ds n pos).
Proof.
  intros Hn Hpos. unfold Dataset.line, line_at.
  destruct (lookup_lt_is_Some_2 _ _ Hn) as [side Hside].
  rewrite (py_get_lookup _ _ _ Hside), Hside. simpl.
  pose proof (wf_parallel _ _ Hwf) as Hpar.
  rewrite Forall_lookup in Hpar. specialize (Hpar _ _ Hside).
  destruct (lookup_lt_is_Some_2 side pos) as [l Hl]; [lia|].
  by rewrite (py_get_lookup _ _ _ Hl), Hl.
Qed.

Lemma raw_lens_Ok pos :
  (pos < n_lines)%nat →
  Dataset.raw_lens ds (n_files ds) pos =
    Ok ((λ n, len_at ds n pos) <$> seq 0 (n_files ds)).
Proof.
  intros Hpos. apply list_comp_fmap, Forall_forall. intros n Hn.
  apply elem_of_seq in Hn. by rewrite line_Ok by lia.
Qed.

Lemma padded_lens_Ok pos :
  (pos < n_lines)%nat →
  Dataset.padded_lens ds (n_files ds) pos = Ok (lens_of ds pos).
Proof.
  intros Hpos. apply list_comp_fmap, Forall_forall. intros n Hn.
  apply elem_of_seq in Hn. by rewrite line_Ok by lia.
Qed.

Lemma foldl_max_le x l c : foldl Z.max x l ≤ c ↔ x ≤ c ∧ Forall (λ y, y ≤ c) l.
Proof.
  revert x. induction l as [|y l IH]; intros x; simpl.
  - split; [by intros ?; split|by intros [? _]].
  - rewrite IH, Forall_cons.
    split; [intros [? ?]|intros (? & ? & ?)]; repeat split; try done; lia.
Qed.

Lemma py_max_gt ls c :
  ls ≠ [] →
  (maxl ← py_max ls; Ok (maxl >? c)) = Ok (negb (forallb (λ x, x <=? c) ls)).
Proof.
  destruct ls as [|x ls]; [done|]. intros _. simpl. f_equal.
  destruct (Z.gtb_spec (foldl Z.max x ls) c) as [Hgt|Hle]; symmetry.
  - apply negb_true_iff, not_true_is_false. intros Hall.
    apply andb_prop in Hall as [H0 Hall]. apply Z.leb_le in H0.
    assert (foldl Z.max x ls ≤ c); [|lia].
    apply foldl_max_le. split; [done|]. apply Forall_forall. intros y Hin.
    rewrite forallb_forall in Hall. by apply Z.leb_le, Hall, list_elem_of_In.
  - apply negb_false_iff. apply foldl_max_le in Hle as [H0 Hall].
    apply andb_true_intro. split; [by apply Z.leb_le|].
    apply forallb_forall. intros y Hin. apply Z.leb_le.
    rewrite Forall_forall in Hall. by apply Hall, list_elem_of_In.
Qed.

Lemma forallb_fmap {A B} (f : A → B) (p : B → bool) l :
  forallb p (f <$> l) = forallb (λ x, p (f x)) l.
Proof. induction l as [|x l IH]; simpl; [done|]. f_equal. exact IH. Qed.

Lemma keep_filter pos :
  (0 < n_files ds)%nat → (pos < n_lines)%nat →
  (if Dataset.max_length ds =? 0 then Ok false
   else ls ← Dataset.raw_lens ds (n_files ds) pos;
        maxl ← py_max ls;
        Ok (maxl >? Dataset.max_length ds)) = Ok (negb (keep ds pos)).
Proof.
  intros Hn Hpos. unfold keep.
  destruct (Dataset.max_length ds =? 0); [done|].
  rewrite raw_lens_Ok by done. cbn [mbind result_bind orb].
  rewrite py_max_gt, forallb_fmap; [done|].
  destruct (n_files ds); [lia|done].
Qed.

Lemma build_shard_Ok shard shard_pos shard_len :
  (0 < n_files ds)%nat → Forall (λ pos, (pos < n_lines)%nat) shard →
  Dataset.build_shard ds (n_files ds) shard shard_pos shard_len =
    Ok (shard_pos ++ filter (λ pos, keep ds pos) shard,
        shard_len ++ (len_at ds 0 <$> filter (λ pos, keep ds pos) shard)).
Proof.
  intros Hn Hall. revert shard_pos shard_len.
  induction Hall as [|pos shard Hpos _ IH]; intros shard_pos shard_len.
  - simpl. by rewrite !app_nil_r.
  - cbn [Dataset.build_shard]. rewrite keep_filter by done. simpl.
    destruct (keep ds pos) eqn:Hk; simpl.
    + rewrite line_Ok by done. simpl. rewrite IH.
      rewrite filter_cons_True by (by apply Is_true_true).
      simpl. by rewrite <- !app_assoc.
    + rewrite IH. by rewrite filter_cons_False by (by apply Is_true_false).
Qed.

End corpus.

(** ** Dataset: sorting a shard *)

Lemma sort_shard_Ok argsort shard_pos shard_len :
  argsort shard_len ≡ₚ seq 0 (length shard_len) →
  length shard_len = length shard_pos →
  ∃ sorted, Dataset.sort_shard argsort shard_pos shard_len = Ok sorted ∧
            sorted = (λ i, default 0%nat (shard_pos !! i)) <$> argsort shard_len ∧
            sorted ≡ₚ shard_pos.
Proof.
  intros Hperm Hlen. eexists. split; [|split; [reflexivity|]].
  - apply list_comp_fmap, Forall_forall. intros i Hi.
    rewrite Hperm in Hi. apply elem_of_seq in Hi.
    destruct (lookup_lt_is_Some_2 shard_pos i) as [p Hp]; [lia|].
    by rewrite (py_get_lookup _ _ _ Hp), Hp.
  - rewrite Hperm, Hlen. by rewrite fmap_lookup_seq.
Qed.

(** ** Dataset: the packing loop *)

Lemma Forall2_fmap_seq {A B} (R : A → B → Prop) (f : nat → A) (g : nat → B) n :
  Forall2 R (f <$> seq 0 n) (g <$> seq 0 n) ↔ ∀ i, (i < n)%nat → R (f i) (g i).
Proof.
  rewrite Forall2_fmap. split.
  - intros H i Hi.
    by apply (Forall2_lookup_lr _ _ _ i i i H); apply lookup_seq_lt.
  - intros H. apply Forall2_same_length_lookup_2; [done|].
    intros i x y [-> _]%lookup_seq [-> Hi]%lookup_seq. by apply H.
Qed.

Lemma zip_with_fmap_seq {A B C} (h : A → B → C) (f : nat → A) (g : nat → B)
    (l : list nat) :
  zip_with h (f <$> l) (g <$> l) = (λ i, h (f i) (g i)) <$> l.
Proof. induction l as [|x l IH]; simpl; [done|]. f_equal. exact IH. Qed.

Lemma max_padded_snoc ds n P pos :
  max_padded ds n (P ++ [pos]) = Z.max (max_padded ds n P) (len_at ds n pos + 2).
Proof. unfold max_padded. by rewrite foldl_app. Qed.

Lemma len_at_nonneg ds n pos : 0 ≤ len_at ds n pos.
Proof. unfold len_at. lia. Qed.

Lemma fmap_seq_zero (f : nat → Z) n :
  (∀ i, f i = 0) → f <$> seq 0 n = replicate n 0.
Proof. intros Hf. rewrite (const_fmap f _ 0) by done. by rewrite length_seq. Qed.

Lemma acc_inv_reset ds b :
  Batch.batch_size b = Dataset.batch_size ds →
  Batch.batch_type b = Dataset.batch_type ds →
  acc_inv ds (Batch.reset b (n_files ds)).
Proof.
  intros Hsz Hty. split; simpl; try done.
  symmetry. by apply fmap_seq_zero.
Qed.

Lemma acc_inv_empty ds b :
  acc_inv ds b → Batch.Pos b = [] → Batch.reset b (n_files ds) = b.
Proof.
  intros [Hsz Hty Hmax _ _] Hpos. destruct b as [sz ty P ms]. simpl in *.
  subst P. unfold Batch.reset. simpl. f_equal.
  rewrite Hmax. symmetry. by apply fmap_seq_zero.
Qed.

Section packing.

Context (ds : Dataset.t) (n_lines : nat) (Hwf : well_formed ds n_lines).

(** One call of [add] from the loop: the example is accepted, and then it
    also fits alone; or it is rejected with the accumulator left as it
    was, and if the accumulator was empty the example does not fit alone. *)
Lemma add_cases b pos :
  acc_inv ds b →
  (Batch.add b pos (lens_of ds pos) = (accepted b pos (lens_of ds pos), Ok true) ∧
   acc_inv ds (accepted b pos (lens_of ds pos)) ∧ fits_alone ds pos) ∨
  (Batch.add b pos (lens_of ds pos) = (b, Ok false) ∧
   (Batch.Pos b = [] → ¬ fits_alone ds pos)).
Proof.
  intros [Hsz Hty Hmax Hbound Halone].
  assert (length (lens_of ds pos) = length (Batch.max_lens b)) as Hlen.
  { unfold lens_of. by rewrite Hmax, !length_fmap. }
  assert (zip_with Z.max (Batch.max_lens b) (lens_of ds pos) =
          (λ n, max_padded ds n (Batch.Pos b ++ [pos])) <$> seq 0 (n_files ds))
    as Hzip.
  { unfold lens_of. rewrite Hmax, zip_with_fmap_seq.
    apply list_fmap_ext. intros _ n _. by rewrite max_padded_snoc. }
  destruct (Dataset.batch_type ds =? "tokens")%string eqn:Hb;
    [pose proof (proj1 (String.eqb_eq _ _) Hb) as Htok
    |pose proof (proj1 (String.eqb_neq _ _) Hb) as Htok].
  - rewrite add_tokens by congruence. unfold Batch.len. rewrite Hsz.
    case_bool_decide as HF.
    + left. split; [done|].
      unfold lens_of in HF. rewrite Hmax, Forall2_fmap_seq in HF.
      assert (∀ n, (n < n_files ds)%nat →
                len_at ds n pos + 2 ≤ Dataset.batch_size ds) as Hpos.
      { intros n Hn. specialize (HF n Hn).
        pose proof (len_at_nonneg ds n pos). nia. }
      split; [split; simpl; try done|].
      * unfold within_capacity. rewrite Hb.
        intros _ n Hn. specialize (HF n Hn).
        rewrite max_padded_snoc, length_app. simpl.
        replace (Z.of_nat (length (Batch.Pos b) + 1))
          with (Z.of_nat (length (Batch.Pos b)) + 1) by lia. done.
      * apply Forall_app. split; [done|]. apply Forall_singleton.
        unfold fits_alone. rewrite Hb.
        apply Is_true_true, forallb_forall. intros n Hn.
        apply list_elem_of_In, elem_of_seq in Hn. apply Z.leb_le, Hpos. lia.
      * unfold fits_alone. rewrite Hb.
        apply Is_true_true, forallb_forall. intros n Hn.
        apply list_elem_of_In, elem_of_seq in Hn. apply Z.leb_le, Hpos. lia.
    + right. split; [done|]. intros Hempty Hfit. apply HF.
      unfold fits_alone in Hfit. rewrite Hb in Hfit.
      unfold lens_of. rewrite Hmax, Forall2_fmap_seq. intros n Hn.
      rewrite Hempty. simpl.
      apply Is_true_true in Hfit. rewrite forallb_forall in Hfit.
      specialize (Hfit n). rewrite Z.leb_le in Hfit.
      pose proof (len_at_nonneg ds n pos).
      change (max_padded ds n []) with 0.
      assert (len_at ds n pos + 2 ≤ Dataset.batch_size ds); [|lia].
      apply Hfit, list_elem_of_In, elem_of_seq. lia.
  - rewrite add_sentences by congruence. unfold Batch.len in *. rewrite Hsz.
    case_bool_decide as Heq.
    + right. split; [done|]. intros Hempty. rewrite Hempty in Heq.
      simpl in Heq. unfold fits_alone. rewrite Hb, <- Heq. simpl. tauto.
    + left. split; [done|].
      assert (Dataset.batch_size ds ≠ 0) as Hcap.
      { intros H0. destruct (Batch.Pos b) as [|p P] eqn:HP.
        - simpl in Heq. lia.
        - apply Forall_cons in Halone as [Hp _].
          unfold fits_alone in Hp. rewrite Hb, H0 in Hp. done. }
      split; [split; simpl; try done|].
      * unfold within_capacity. rewrite Hb.
        intros _ Hnn. rewrite length_app. simpl.
        destruct (Batch.Pos b) as [|p P] eqn:HP; [simpl in *; lia|].
        specialize (Hbound ltac:(done)). unfold within_capacity in Hbound.
        rewrite Hb in Hbound. specialize (Hbound Hnn). simpl in *. lia.
      * apply Forall_app. split; [done|]. apply Forall_singleton.
        unfold fits_alone. rewrite Hb.
        apply Is_true_true, negb_true_iff, Z.eqb_neq. lia.
      * unfold fits_alone. rewrite Hb.
        apply Is_true_true, negb_true_iff, Z.eqb_neq. lia.
Qed.

End packing.

Section packing_loop.

Context (ds : Dataset.t) (n_lines : nat) (Hwf : well_formed ds n_lines).

Lemma saved_batch_of_acc b :
  acc_inv ds b → Batch.Pos b ≠ [] → saved_batch ds (Batch.Pos b).
Proof. intros [_ _ _ Hbound Halone] Hne. split; [done|]. split; auto. Qed.

Lemma len_zero b : (Batch.len b =? 0) = bool_decide (Batch.Pos b = []).
Proof. unfold Batch.len. by destruct (Batch.Pos b). Qed.

(** The packing loop runs to its end; the examples of the saved batches
    followed by those still in the accumulator are, in order, the examples
    it held at the start followed by the examples of the shard that fit
    alone. *)
Lemma pack_spec poss : ∀ b batchs,
  Forall (λ pos, (pos < n_lines)%nat) poss →
  acc_inv ds b → Forall (saved_batch ds) batchs →
  ∃ b' batchs',
    Dataset.pack ds (n_files ds) b batchs poss = Ok (b', batchs') ∧
    acc_inv ds b' ∧ Forall (saved_batch ds) batchs' ∧
    concat batchs' ++ Batch.Pos b' =
      concat batchs ++ Batch.Pos b ++ filter (λ pos, fits_alone ds pos) poss.
Proof.
  induction poss as [|pos rest IH]; intros b batchs Hposs Hinv Hsaved.
  - exists b, batchs. by rewrite filter_nil, app_nil_r.
  - apply Forall_cons in Hposs as [Hpos Hrest].
    cbn [Dataset.pack]. rewrite (padded_lens_Ok ds n_lines Hwf) by done.
    cbn [mbind result_bind].
    destruct (add_cases ds b pos Hinv) as [(Hadd & Hinv' & Hfit)|(Hadd & Hempty)];
      rewrite Hadd.
    + destruct (IH _ batchs Hrest Hinv' Hsaved) as (b' & batchs' & -> & ? & ? & Heq).
      exists b', batchs'. split; [done|]. split; [done|]. split; [done|].
      rewrite Heq, filter_cons_True by done. simpl. by rewrite <- !app_assoc.
    + rewrite len_zero. case_bool_decide as HP.
      * rewrite Hadd.
        destruct (IH _ batchs Hrest Hinv Hsaved) as (b' & batchs' & -> & ? & ? & Heq).
        exists b', batchs'. split; [done|]. split; [done|]. split; [done|].
        by rewrite Heq, filter_cons_False by auto.
      * assert (acc_inv ds (Batch.reset b (n_files ds))) as Hinv0.
        { destruct Hinv. by apply acc_inv_reset. }
        assert (Forall (saved_batch ds) (batchs ++ [Batch.Pos b])) as Hsaved'.
        { apply Forall_app. split; [done|].
          by apply Forall_singleton, saved_batch_of_acc. }
        destruct (add_cases ds (Batch.reset b (n_files ds)) pos Hinv0)
          as [(Hadd0 & Hinv' & Hfit)|(Hadd0 & Hempty0)]; rewrite Hadd0.
        -- destruct (IH _ _ Hrest Hinv' Hsaved')
             as (b' & batchs' & -> & ? & ? & Heq).
           exists b', batchs'. split; [done|]. split; [done|]. split; [done|].
           rewrite Heq, filter_cons_True by done. simpl.
           rewrite concat_app. simpl. by rewrite app_nil_r, <- !app_assoc.
        -- destruct (IH _ _ Hrest Hinv0 Hsaved')
             as (b' & batchs' & -> & ? & ? & Heq).
           exists b', batchs'. split; [done|]. split; [done|]. split; [done|].
           rewrite Heq, filter_cons_False by auto. simpl.
           rewrite concat_app. simpl. by rewrite !app_nil_r, <- !app_assoc.
Qed.

(** The batches of a sorted shard: each is a saved batch, and together
    they hold, in order, the examples of the shard that fit alone. *)
Lemma build_batchs_spec sorted :
  valid_policy ds → Forall (λ pos, (pos < n_lines)%nat) sorted →
  ∃ batchs,
    Dataset.build_batchs ds (n_files ds) sorted = Ok batchs ∧
    Forall (saved_batch ds) batchs ∧
    concat batchs = filter (λ pos, fits_alone ds pos) sorted.
Proof.
  intros Hvalid Hsorted. unfold Dataset.build_batchs, Batch.init.
  assert ((Dataset.batch_type ds =? "sentences")%string ||
          (Dataset.batch_type ds =? "tokens")%string = true) as ->.
  { destruct Hvalid as [->| ->]; done. }
  cbn [mbind result_bind].
  change (Batch.reset_of (Batch.Fresh ?bs ?bt) ?n)
    with (Batch.reset (Batch.mk bs bt [] []) n).
  destruct (pack_spec sorted
              (Batch.reset (Batch.mk (Dataset.batch_size ds)
                                     (Dataset.batch_type ds) [] [])
                           (n_files ds)) [] Hsorted)
    as (b' & batchs' & -> & Hinv & Hsaved & Heq).
  { by apply acc_inv_reset. }
  { constructor. }
  cbn [mbind result_bind]. simpl in Heq. rewrite len_zero.
  case_bool_decide as HP.
  - exists batchs'. rewrite HP, app_nil_r in Heq. done.
  - exists (batchs' ++ [Batch.Pos b']). split; [done|]. split.
    + apply Forall_app. split; [done|].
      by apply Forall_singleton, saved_batch_of_acc.
    + rewrite concat_app. simpl. by rewrite app_nil_r.
Qed.

End packing_loop.

(** ** Dataset: yielding the batches of a shard *)

Lemma concat_Permutation_proper {A} (l k : list (list A)) :
  l ≡ₚ k → concat l ≡ₚ concat k.
Proof.
  induction 1 as [|x l k _ IH|x y l|l k m _ IH1 _ IH2]; simpl.
  - done.
  - by rewrite IH.
  - apply Permutation_app_swap_app.
  - by rewrite IH1.
Qed.

Lemma concat_chunks {A} (l : list A) k m :
  concat ((λ i, take k (drop i l)) <$> ((λ j, j * k)%nat <$> seq 0 m)) =
    take (m * k) l.
Proof.
  induction m as [|m IH]; [done|].
  rewrite seq_S, !fmap_app, concat_app, IH. simpl.
  rewrite app_nil_r, take_take_drop. f_equal. lia.
Qed.

Lemma div_up_mul n k : (0 < k)%nat → (n ≤ (n + k - 1) / k * k)%nat.
Proof.
  intros Hk. pose proof (Nat.div_mod_eq (n + k - 1) k) as Hdm.
  pose proof (Nat.mod_upper_bound (n + k - 1) k ltac:(lia)). nia.
Qed.

Lemma split_shards_pos Pos n size :
  0 < size → (length Pos ≤ n)%nat →
  ∃ shards, Dataset.split_shards Pos n size = Ok shards ∧ concat shards = Pos.
Proof.
  intros Hsize Hlen. unfold Dataset.split_shards, py_range_step.
  destruct (Z.eqb_spec size 0) as [|_]; [lia|].
  destruct (Z.ltb_spec size 0) as [|_]; [lia|].
  eexists. split; [reflexivity|]. rewrite concat_chunks. apply take_ge.
  pose proof (div_up_mul n (Z.to_nat size) ltac:(lia)). lia.
Qed.

Section yielding.

Context (ds : Dataset.t) (n_lines : nat) (Hwf : well_formed ds n_lines).

Lemma wrap_Ok n pos :
  (n < n_files ds)%nat → (pos < n_lines)%nat →
  Dataset.wrap ds n pos = Ok (wrapped ds n pos).
Proof.
  intros Hn Hpos. unfold Dataset.wrap, wrapped.
  pose proof (wf_bos _ _ Hwf) as Hbos. pose proof (wf_eos _ _ Hwf) as Heos.
  destruct (lookup_lt_is_Some_2 (Dataset.idx_bos ds) n) as [bos Hb]; [lia|].
  destruct (lookup_lt_is_Some_2 (Dataset.idx_eos ds) n) as [eos He]; [lia|].
  rewrite (py_get_lookup _ _ _ Hb), (py_get_lookup _ _ _ He), Hb, He.
  by rewrite (line_Ok ds n_lines Hwf).
Qed.

Lemma idxs_all_Ok batch :
  Forall (λ pos, (pos < n_lines)%nat) batch →
  Dataset.idxs_all ds (n_files ds) batch = Ok (item_of ds batch).2.
Proof.
  intros Hbatch. apply list_comp_fmap, Forall_forall. intros n Hn.
  apply elem_of_seq in Hn. apply list_comp_fmap.
  eapply Forall_impl; [done|]. intros pos Hpos. apply wrap_Ok; [lia|done].
Qed.

Lemma yield_batchs_spec batchs idx_batchs :
  Forall (Forall (λ pos, (pos < n_lines)%nat)) batchs →
  Forall (λ i, (i < length batchs)%nat) idx_batchs →
  Dataset.yield_batchs ds (n_files ds) batchs idx_batchs =
    (item_of ds <$> ((λ i, default [] (batchs !! i)) <$> idx_batchs), None).
Proof.
  intros Hbatchs. induction 1 as [|i idx Hi _ IH]; [done|].
  cbn [Dataset.yield_batchs].
  destruct (lookup_lt_is_Some_2 batchs i Hi) as [batch Hbatch].
  rewrite (py_get_lookup _ _ _ Hbatch). cbn [mbind result_bind].
  rewrite idxs_all_Ok by (by eapply Forall_lookup_1). cbn [mbind result_bind].
  rewrite IH, !fmap_cons, Hbatch. done.
Qed.

End yielding.

(** ** Dataset: one pass of the iterator *)

Section pass.

Context (ds : Dataset.t) (n_lines : nat) (Hwf : well_formed ds n_lines).
Context (Hvalid : valid_policy ds) (Hfiles : (0 < n_files ds)%nat).
Context (shuffle : nat → list nat → list nat) (Hshuffle : is_shuffle shuffle).
Context (argsort : list Z → list nat) (Hargsort : is_argsort argsort).

Lemma do_shard_spec s shard :
  Forall (λ pos, (pos < n_lines)%nat) shard →
  ∃ yb, Dataset.do_shard shuffle argsort ds (n_files ds) s shard =
          (item_of ds <$> yb, None) ∧
        Forall (saved_batch ds) yb ∧ concat yb ≡ₚ emitted ds shard.
Proof.
  intros Hshard. unfold Dataset.do_shard.
  rewrite (build_shard_Ok ds n_lines Hwf) by done.
  rewrite !app_nil_l. cbn [mbind result_bind].
  destruct (sort_shard_Ok argsort (filter (λ pos, keep ds pos) shard)
              (len_at ds 0 <$> filter (λ pos, keep ds pos) shard))
    as (sorted & -> & _ & Hperm).
  { apply Hargsort. }
  { by rewrite length_fmap. }
  cbn [mbind result_bind].
  assert (Forall (λ pos, (pos < n_lines)%nat) sorted) as Hsorted.
  { rewrite Hperm. apply Forall_forall. intros pos Hin.
    apply list_elem_of_filter in Hin as [_ Hin].
    rewrite Forall_forall in Hshard. by apply Hshard. }
  destruct (build_batchs_spec ds n_lines Hwf sorted Hvalid Hsorted)
    as (batchs & -> & Hsaved & Hconcat).
  rewrite (yield_batchs_spec ds n_lines Hwf).
  - eexists. split; [reflexivity|].
    assert ((λ i, default [] (batchs !! i)) <$>
              shuffle (S s) (seq 0 (length batchs)) ≡ₚ batchs) as Hyb.
    { rewrite (Hshuffle (S s)). by rewrite fmap_lookup_seq. }
    split.
    + by rewrite Hyb.
    + rewrite (concat_Permutation_proper _ _ Hyb), Hconcat.
      unfold emitted. by rewrite Hperm.
  - apply Forall_forall. intros batch Hbatch. apply Forall_forall.
    intros pos Hpos. rewrite Forall_forall in Hsorted. apply Hsorted.
    assert (pos ∈ concat batchs) as Hin.
    { apply list_elem_of_In, in_concat. exists batch.
      split; by apply list_elem_of_In. }
    rewrite Hconcat in Hin. by apply list_elem_of_filter in Hin as [_ ?].
  - apply Forall_forall. intros i Hi. rewrite (Hshuffle (S s)) in Hi.
    apply elem_of_seq in Hi. lia.
Qed.

Lemma run_shards_spec shards : ∀ s,
  Forall (Forall (λ pos, (pos < n_lines)%nat)) shards →
  ∃ yb, Dataset.run_shards shuffle argsort ds (n_files ds) s shards =
          (item_of ds <$> yb, None) ∧
        Forall (saved_batch ds) yb ∧ concat yb ≡ₚ emitted ds (concat shards).
Proof.
  induction shards as [|shard rest IH]; intros s Hshards.
  - exists []. by repeat split.
  - apply Forall_cons in Hshards as [Hshard Hrest].
    cbn [Dataset.run_shards].
    destruct (do_shard_spec s shard Hshard) as (yb1 & -> & Hs1 & Hc1).
    destruct (IH (S s) Hrest) as (yb2 & -> & Hs2 & Hc2).
    exists (yb1 ++ yb2). split; [by rewrite fmap_app|]. split.
    + by apply Forall_app.
    + simpl. unfold emitted in *.
      by rewrite concat_app, !filter_app, Hc1, Hc2.
Qed.

(** One pass, by the sign of the shard size in force: zero (an empty
    corpus with [shard_size] zero) stops at [range]; a negative size gives
    no shard; a positive size yields saved batches that hold, between them,
    each position that passes the filter and fits alone once. *)
Lemma iter_cases :
  (Dataset.shard_size_of ds n_lines = 0 ∧
   Dataset.iter shuffle argsort ds = ([], Some ValueError)) ∨
  (Dataset.shard_size_of ds n_lines < 0 ∧
   Dataset.iter shuffle argsort ds = ([], None)) ∨
  (0 < Dataset.shard_size_of ds n_lines ∧
   ∃ yb, Dataset.iter shuffle argsort ds = (item_of ds <$> yb, None) ∧
         Forall (saved_batch ds) yb ∧ concat yb ≡ₚ emitted ds (seq 0 n_lines)).
Proof.
  unfold Dataset.iter. pose proof Hfiles as Hf. unfold n_files in Hf.
  pose proof (wf_parallel _ _ Hwf) as Hpar.
  destruct (Dataset.File_Line_Idx ds) as [|side0 sides] eqn:HF;
    [simpl in Hf; lia|].
  apply Forall_cons in Hpar as [-> _].
  replace (length (side0 :: sides)) with (n_files ds)
    by (unfold n_files; by rewrite HF).
  set (size := Dataset.shard_size_of ds n_lines).
  destruct (Z.lt_trichotomy size 0) as [Hneg|[Hzero|Hpos]].
  - right. left. split; [done|].
    unfold Dataset.split_shards, py_range_step.
    destruct (Z.eqb_spec size 0) as [|_]; [lia|].
    destruct (Z.ltb_spec size 0) as [_|]; [|lia]. done.
  - left. split; [done|].
    unfold Dataset.split_shards, py_range_step. by rewrite Hzero.
  - right. right. split; [done|].
    destruct (split_shards_pos (shuffle 0%nat (seq 0 n_lines)) n_lines size Hpos)
      as (shards & -> & Hconcat).
    { by rewrite (Hshuffle 0%nat), length_seq. }
    destruct (run_shards_spec shards 0%nat) as (yb & -> & Hsaved & Hc).
    { apply Forall_forall. intros shard Hshard. apply Forall_forall.
      intros pos Hpos'.
      assert (pos ∈ concat shards) as Hin.
      { apply list_elem_of_In, in_concat. exists shard.
        split; by apply list_elem_of_In. }
      rewrite Hconcat, (Hshuffle 0%nat) in Hin. apply elem_of_seq in Hin. lia. }
    exists yb. split; [done|]. split; [done|].
    rewrite Hc, Hconcat. unfold emitted. by rewrite (Hshuffle 0%nat).
Qed.

End pass.

(** ** The sample library calls meet their contracts *)

Lemma shuffle_id_is_shuffle : is_shuffle shuffle_id.
Proof. by intros k l. Qed.

Lemma shuffle_rev_is_shuffle : is_shuffle shuffle_rev.
Proof. intros k l. apply reverse_Permutation. Qed.

Section insertion.

Context (before : Z → Z → bool) (key : nat → Z).
Context (Hbefore : ∀ a b, if before a b return Prop then a ≤ b else b ≤ a).

Lemma insert_by_Permutation i idx : insert_by before key i idx ≡ₚ i :: idx.
Proof.
  induction idx as [|j idx IH]; simpl; [done|].
  destruct (before (key i) (key j)); [done|]. rewrite IH. apply Permutation_swap.
Qed.

Lemma insert_by_sorted i idx :
  StronglySorted Z.le (key <$> idx) →
  StronglySorted Z.le (key <$> insert_by before key i idx).
Proof.
  induction idx as [|j idx IH]; simpl; intros Hs.
  - repeat constructor.
  - apply StronglySorted_inv in Hs as [Hs Hall].
    pose proof (Hbefore (key i) (key j)) as Hij.
    destruct (before (key i) (key j)); simpl.
    + constructor; [by constructor|]. constructor; [done|].
      eapply Forall_impl; [done|]. simpl. lia.
    + constructor; [by apply IH|].
      rewrite insert_by_Permutation. simpl. by constructor.
Qed.

End insertion.

Lemma argsort_by_is_argsort (before : Z → Z → bool) :
  (∀ a b, if before a b return Prop then a ≤ b else b ≤ a) →
  is_argsort (argsort_by before).
Proof.
  intros Hbefore l. unfold argsort_by, keys_of.
  set (key := λ i, default 0 (l !! i)). generalize (seq 0 (length l)) as idx.
  intros idx. split.
  - induction idx as [|i idx IH]; simpl; [done|].
    by rewrite insert_by_Permutation, IH.
  - apply StronglySorted_Sorted.
    induction idx as [|i idx IH]; simpl; [constructor|].
    by apply insert_by_sorted.
Qed.

Lemma argsort_stable_is_argsort : is_argsort argsort_stable.
Proof.
  apply argsort_by_is_argsort. intros a b.
  destruct (Z.leb_spec a b); lia.
Qed.

Lemma argsort_reversing_is_argsort : is_argsort argsort_reversing.
Proof.
  apply argsort_by_is_argsort. intros a b.
  destruct (Z.ltb_spec a b); lia.
Qed.

(** ** Dataset: construction *)

Section construction.

Context (flatten_count : list (list Z) → list Z → Z * Z).

Lemma load_spec vocs ftxts : ∀ i bos eos F bos' eos' F',
  Dataset.load flatten_count vocs i ftxts bos eos F = Ok (bos', eos', F') →
  Forall (λ side, length side = length (default [] (head F))) F →
  length bos = length F → length eos = length F →
  (bos `prefix_of` bos' ∧ eos `prefix_of` eos' ∧ F `prefix_of` F') ∧
  (Forall (λ side, length side = length (default [] (head F'))) F' ∧
   length bos' = length F' ∧ length eos' = length F') ∧
  ∀ k ftxt, ftxts !! k = Some ftxt →
    ∃ voc, vocs !! (i + k)%nat = Some voc ∧
           F' !! (length F + k)%nat = Some (encode voc ftxt) ∧
           bos' !! (length F + k)%nat = Some (Vocab.idx_bos voc) ∧
           eos' !! (length F + k)%nat = Some (Vocab.idx_eos voc).
Proof.
  induction ftxts as [|ftxt rest IH]; intros i bos eos F bos' eos' F'.
  - simpl. intros [= <- <- <-] Hpar Hb He. by repeat split.
  - cbn [Dataset.load]. destruct (py_get vocs i) as [voc|] eqn:Hvoc; [|done].
    apply py_get_Ok in Hvoc. cbn [mbind result_bind].
    fold (encode voc ftxt). destruct (flatten_count _ _) as [n_tok n_unk].
    destruct (n_tok =? 0); [done|].
    destruct (Nat.eqb_spec (length (default [] (head (F ++ [encode voc ftxt]))))
                (length (encode voc ftxt))) as [Hhead|]; [|done].
    intros Hload Hpar Hb He.
    apply IH in Hload as ((Hpb & Hpe & HpF) & Hwf' & Hcontent).
    + split; [|split; [done|]].
      * repeat split; (etrans; [|done]); by apply prefix_app_r.
      * intros [|k] ftxt' Hk; simpl in Hk.
        -- injection Hk as <-. exists voc. rewrite !Nat.add_0_r.
           split; [done|]. split; [|split].
           ++ eapply prefix_lookup_Some; [|done]. by apply list_lookup_middle.
           ++ eapply prefix_lookup_Some; [|done]. by apply list_lookup_middle.
           ++ eapply prefix_lookup_Some; [|done]. by apply list_lookup_middle.
        -- destruct (Hcontent k ftxt' Hk) as (voc' & ? & HF' & Hb' & He').
           rewrite length_app in HF', Hb', He'. simpl in *.
           exists voc'. replace (i + S k)%nat with (S i + k)%nat by lia.
           replace (length F + S k)%nat with (length F + 1 + k)%nat by lia.
           done.
    + apply Forall_app. split; [|by apply Forall_singleton].
      destruct F as [|side0 F0]; [constructor|]. done.
    + rewrite !length_app. simpl. lia.
    + rewrite !length_app. simpl. lia.
Qed.

(** A constructed engine is well formed, and holds for every side the ids
    of its file under its vocabulary and that vocabulary's marker ids. *)
Lemma init_spec ftxts vocs shard_size batch_size batch_type max_length ds :
  Dataset.init flatten_count ftxts vocs shard_size batch_size batch_type
               max_length = Ok ds →
  well_formed ds (length (default [] (head (Dataset.File_Line_Idx ds)))) ∧
  ∀ n ftxt, ftxts !! n = Some ftxt →
    ∃ voc, vocs !! n = Some voc ∧
           Dataset.File_Line_Idx ds !! n = Some (encode voc ftxt) ∧
           Dataset.idx_bos ds !! n = Some (Vocab.idx_bos voc) ∧
           Dataset.idx_eos ds !! n = Some (Vocab.idx_eos voc).
Proof.
  unfold Dataset.init.
  destruct (Dataset.load _ _ _ _ _ _ _) as [[[bos eos] F]|] eqn:Hload; [|done].
  cbn [mbind result_bind]. intros [=<-].
  apply load_spec in Hload as (_ & (Hpar & Hb & He) & Hcontent);
    [|constructor|done|done].
  split; [by split|]. intros n ftxt Hn.
  destruct (Hcontent n ftxt Hn) as (voc & ? & ? & ? & ?). by exists voc.
Qed.

End construction.

Lemma ds_scenario_init batch_type batch_size :
  Dataset.init flatten_count corpus_ab [vocab_ab; vocab_xy] 0 batch_size
               batch_type 0 = Ok (ds_scenario batch_type batch_size).
Proof. reflexivity. Qed.

(** With [flatten_count] as modelled, a file without a line stops the
    constructor at the division of the log call. *)
Lemma init_empty_file shard_size batch_size batch_type max_length :
  Dataset.init flatten_count [[]] [vocab_ab] shard_size batch_size batch_type
               max_length = Raise ZeroDivisionError.
Proof. reflexivity. Qed.

Lemma vocab_ab_init :
  Vocab.init ["<pad>"; "<unk>"; "<bos>"; "<eos>"; "a"; "b"] = Ok vocab_ab.
Proof. reflexivity. Qed.

Lemma vocab_xy_init :
  Vocab.init ["<pad>"; "<unk>"; "<bos>"; "<eos>"; "x"; "y"] = Ok vocab_xy.
Proof. reflexivity. Qed.

Lemma ds_scenario_wf batch_type batch_size :
  well_formed (ds_scenario batch_type batch_size) 2.
Proof. split; [by repeat constructor|done..]. Qed.

Lemma load_length flatten_count vocs ftxts : ∀ i bos eos F bos' eos' F',
  Dataset.load flatten_count vocs i ftxts bos eos F = Ok (bos', eos', F') →
  length F' = (length F + length ftxts)%nat.
Proof.
  induction ftxts as [|ftxt rest IH]; intros i bos eos F bos' eos' F'.
  - simpl. intros [= _ _ <-]. lia.
  - cbn [Dataset.load]. destruct (py_get vocs i) as [voc|]; [|done].
    cbn [mbind result_bind]. destruct (flatten_count _ _) as [n_tok n_unk].
    destruct (n_tok =? 0); [done|]. destruct (_ =? _)%nat; [|done].
    intros ->%IH. rewrite length_app. simpl. lia.
Qed.

Lemma load_ok_iff flatten_count vocs ftxts : ∀ i bos eos F,
  is_ok (Dataset.load flatten_count vocs i ftxts bos eos F) ↔
  ∀ k ftxt, ftxts !! k = Some ftxt →
    ∃ voc, vocs !! (i + k)%nat = Some voc ∧
           (flatten_count (encode voc ftxt) [Vocab.idx_unk voc]).1 ≠ 0 ∧
           length ftxt = match F with
                         | side0 :: _ => length side0
                         | [] => length (default [] (head ftxts))
                         end.
Proof.
  induction ftxts as [|ftxt rest IH]; intros i bos eos F.
  - simpl. split; [by intros _ k ftxt ?|]. intros _. by eexists.
  - cbn [Dataset.load]. fold (encode).
    assert (∀ voc, length (default [] (head (F ++ [encode voc ftxt]))) =
                   match F with side0 :: _ => length side0 | [] => length ftxt end)
      as Hhead.
    { intros voc. destruct F; simpl; [|done]. unfold encode. by rewrite length_fmap. }
    split.
    + destruct (py_get vocs i) as [voc|] eqn:Hvoc; [|by intros [? ?]].
      apply py_get_Ok in Hvoc. cbn [mbind result_bind].
      fold (encode voc ftxt).
      destruct (flatten_count (encode voc ftxt) [Vocab.idx_unk voc])
        as [n_tok n_unk] eqn:Hfc.
      destruct (Z.eqb_spec n_tok 0) as [|Hn]; [by intros [? ?]|].
      destruct (Nat.eqb_spec (length (default [] (head (F ++ [encode voc ftxt]))))
                  (length (encode voc ftxt))) as [Hlen|]; [|by intros [? ?]].
      rewrite Hhead in Hlen. unfold encode in Hlen. rewrite length_fmap in Hlen.
      intros Hok. pose proof (proj1 (IH _ _ _ _) Hok) as Hrest. clear Hok.
      rename Hrest into Hok.
      intros [|k] ftxt' Hk; simpl in Hk.
      * injection Hk as <-. exists voc. rewrite Nat.add_0_r, Hfc.
        split; [done|]. split; [done|]. by destruct F.
      * destruct (Hok k ftxt' Hk) as (voc' & Hv' & Hn' & Hl').
        exists voc'. replace (i + S k)%nat with (S i + k)%nat by lia.
        split; [done|]. split; [done|]. rewrite Hl'.
        destruct F; simpl; [|done]. unfold encode. by rewrite length_fmap.
    + intros Hall. destruct (Hall 0%nat ftxt eq_refl) as (voc & Hvoc & Hn & Hl).
      rewrite Nat.add_0_r in Hvoc. rewrite (py_get_lookup _ _ _ Hvoc).
      cbn [mbind result_bind]. fold (encode voc ftxt).
      destruct (flatten_count (encode voc ftxt) [Vocab.idx_unk voc])
        as [n_tok n_unk]. simpl in Hn.
      destruct (Z.eqb_spec n_tok 0) as [|_]; [done|].
      rewrite Hhead. unfold encode at 1. rewrite length_fmap.
      assert (match F with side0 :: _ => length side0 | [] => length ftxt end
              = length ftxt) as -> by (by destruct F).
      rewrite Nat.eqb_refl. apply IH. intros k ftxt' Hk.
      destruct (Hall (S k) ftxt' Hk) as (voc' & Hv' & Hn' & Hl').
      exists voc'. replace (S i + k)%nat with (i + S k)%nat by lia.
      split; [done|]. split; [done|]. rewrite Hl'.
      destruct F; simpl; [|done]. unfold encode. by rewrite length_fmap.
Qed.

(** ** Dataset: what a yielded value holds *)

Section items.

Context (shuffle : nat → list nat → list nat) (argsort : list Z → list nat).
Context (ds : Dataset.t).

Lemma yield_batchs_items nf batchs idx_batchs y :
  y ∈ (Dataset.yield_batchs ds nf batchs idx_batchs).1 →
  Dataset.idxs_all ds nf y.1 = Ok y.2.
Proof.
  induction idx_batchs as [|i idx IH]; simpl; [by intros ?%elem_of_nil|].
  destruct (py_get batchs i) as [batch|]; simpl; [|by intros ?%elem_of_nil].
  destruct (Dataset.idxs_all ds nf batch) as [all|] eqn:Hall; simpl;
    [|by intros ?%elem_of_nil].
  destruct (Dataset.yield_batchs ds nf batchs idx) as [ys e]. simpl in *.
  intros [->|Hin]%elem_of_cons; [done|by apply IH].
Qed.

Lemma do_shard_items nf s shard y :
  y ∈ (Dataset.do_shard shuffle argsort ds nf s shard).1 →
  Dataset.idxs_all ds nf y.1 = Ok y.2.
Proof.
  unfold Dataset.do_shard. destruct (_ ≫= _); [|by intros ?%elem_of_nil].
  apply yield_batchs_items.
Qed.

Lemma run_shards_items nf shards : ∀ s y,
  y ∈ (Dataset.run_shards shuffle argsort ds nf s shards).1 →
  Dataset.idxs_all ds nf y.1 = Ok y.2.
Proof.
  induction shards as [|shard rest IH]; intros s y; simpl;
    [by intros ?%elem_of_nil|].
  pose proof (do_shard_items nf s shard y) as Hshard.
  destruct (Dataset.do_shard shuffle argsort ds nf s shard) as [ys [e|]];
    [done|].
  specialize (IH (S s) y).
  destruct (Dataset.run_shards shuffle argsort ds nf (S s) rest) as [ys' e'].
  simpl in *. intros [?|?]%elem_of_app; auto.
Qed.

Lemma iter_items y :
  y ∈ (Dataset.iter shuffle argsort ds).1 →
  Dataset.idxs_all ds (n_files ds) y.1 = Ok y.2.
Proof.
  unfold Dataset.iter, n_files.
  destruct (Dataset.File_Line_Idx ds) as [|side0 sides] eqn:HF;
    [by intros ?%elem_of_nil|].
  destruct (Dataset.split_shards _ _ _); [|by intros ?%elem_of_nil].
  rewrite <- HF. apply run_shards_items.
Qed.

(** An emitted id sequence is the line it comes from between the two
    marker ids recorded for its side. *)
Lemma iter_wrapped batch all n seqs k ids :
  (batch, all) ∈ (Dataset.iter shuffle argsort ds).1 →
  all !! n = Some seqs → seqs !! k = Some ids →
  ∃ pos bos eos side l,
    batch !! k = Some pos ∧ Dataset.idx_bos ds !! n = Some bos ∧
    Dataset.idx_eos ds !! n = Some eos ∧
    Dataset.File_Line_Idx ds !! n = Some side ∧ side !! pos = Some l ∧
    ids = [bos] ++ l ++ [eos].
Proof.
  intros Hin%iter_items Hn Hk. simpl in Hin.
  apply list_comp_Ok_Forall2 in Hin.
  destruct (Forall2_lookup_r _ _ _ _ _ Hin Hn) as (n' & Hn' & Hseqs).
  apply lookup_seq in Hn' as [-> _]. simpl in Hseqs.
  apply list_comp_Ok_Forall2 in Hseqs.
  destruct (Forall2_lookup_r _ _ _ _ _ Hseqs Hk) as (pos & Hpos & Hwrap).
  unfold Dataset.wrap, Dataset.line in Hwrap.
  destruct (py_get (Dataset.idx_bos ds) n) as [bos|] eqn:Hb; [|done].
  destruct (py_get (Dataset.File_Line_Idx ds) n) as [side|] eqn:Hs; [|done].
  cbn [mbind result_bind] in Hwrap.
  destruct (py_get side pos) as [l|] eqn:Hl; [|done].
  destruct (py_get (Dataset.idx_eos ds) n) as [eos|] eqn:He; [|done].
  cbn [mbind result_bind] in Hwrap. injection Hwrap as <-.
  apply py_get_Ok in Hb, Hs, Hl, He. by exists pos, bos, eos, side, l.
Qed.

End items.

(** C9. In an engine built by [Dataset.__init__] over vocabularies built by
    [Vocab.__init__], every id sequence emitted for side [n] is the
    begin-marker id of side [n]'s vocabulary, then one id per token of the
    line it comes from, then the end-marker id; and [__getitem__] maps the
    id of every token that the vocabulary contains back to that token. *)
Theorem C9_emitted_roundtrip
    (flatten_count : list (list Z) → list Z → Z * Z)
    (shuffle : nat → list nat → list nat) (argsort : list Z → list nat)
    (ftxts : list (list (list string))) (vocs : list Vocab.t)
    (shard_size batch_size : Z) (batch_type : string) (max_length : Z)
    (ds : Dataset.t) (batch : list nat) (all : list (list (list Z)))
    (n : nat) (seqs : list (list Z)) (k : nat) (ids : list Z) :
  Forall (λ voc, ∃ lines, Vocab.init lines = Ok voc) vocs →
  Dataset.init flatten_count ftxts vocs shard_size batch_size batch_type
               max_length = Ok ds →
  (batch, all) ∈ (Dataset.iter shuffle argsort ds).1 →
  all !! n = Some seqs → seqs !! k = Some ids →
  ∃ voc ftxt pos toks body,
    vocs !! n = Some voc ∧ ftxts !! n = Some ftxt ∧
    batch !! k = Some pos ∧ ftxt !! pos = Some toks ∧
    ids = Vocab.idx_bos voc :: body ++ [Vocab.idx_eos voc] ∧
    head ids = Some (Vocab.idx_bos voc) ∧ last ids = Some (Vocab.idx_eos voc) ∧
    Forall2 (λ id tok, Vocab.contains_str voc tok = true →
                       Vocab.getitem_int voc id = Ok tok) body toks.
Proof.
  intros Hvocs Hinit Hin Hn Hk.
  destruct (iter_wrapped _ _ _ _ _ _ _ _ _ Hin Hn Hk)
    as (pos & bos & eos & side & l & Hpos & Hb & He & Hs & Hl & ->).
  assert (length (Dataset.File_Line_Idx ds) = length ftxts) as Hlen.
  { revert Hinit. unfold Dataset.init.
    destruct (Dataset.load _ _ _ _ _ _ _) as [[[b e] F]|] eqn:Hload; [|done].
    cbn [mbind result_bind]. intros [=<-]. simpl.
    by apply load_length in Hload. }
  destruct (lookup_lt_is_Some_2 ftxts n) as [ftxt Hftxt].
  { rewrite <- Hlen. by eapply lookup_lt_Some. }
  apply init_spec in Hinit as [_ Hcontent].
  destruct (Hcontent n ftxt Hftxt) as (voc & Hvoc & Hs' & Hb' & He').
  rewrite Hs in Hs'. injection Hs' as ->.
  rewrite Hb in Hb'. injection Hb' as ->.
  rewrite He in He'. injection He' as ->.
  unfold encode in Hl. rewrite list_lookup_fmap in Hl.
  destruct (ftxt !! pos) as [toks|] eqn:Htoks; [|done].
  injection Hl as <-.
  exists voc, ftxt, pos, toks, (Vocab.getitem_str voc <$> toks).
  repeat split; try done.
  - by rewrite app_assoc, last_snoc.
  - apply Forall2_fmap_l, Forall_Forall2_diag, Forall_forall.
    intros tok _ Hcontains. rewrite Forall_forall in Hvocs.
    destruct (Hvocs voc) as [lines Hlines]; [by eapply list_elem_of_lookup_2|].
    by eapply getitem_roundtrip.
Qed.

Lemma C9_emitted_roundtrip_witness :
  ∃ voc ftxt pos toks body,
    [vocab_ab; vocab_xy] !! 0%nat = Some voc ∧ corpus_ab !! 0%nat = Some ftxt ∧
    [1; 0]%nat !! 1%nat = Some pos ∧ ftxt !! pos = Some toks ∧
    [2; 4; 5; 3] = Vocab.idx_bos voc :: body ++ [Vocab.idx_eos voc] ∧
    head [2; 4; 5; 3] = Some (Vocab.idx_bos voc) ∧
    last [2; 4; 5; 3] = Some (Vocab.idx_eos voc) ∧
    Forall2 (λ id tok, Vocab.contains_str voc tok = true →
                       Vocab.getitem_int voc id = Ok tok) body toks.
Proof.
  apply (C9_emitted_roundtrip flatten_count shuffle_id argsort_stable
           corpus_ab [vocab_ab; vocab_xy] 0 10 "sentences" 0
           (ds_scenario "sentences" 10) [1; 0]%nat
           [[[2; 5; 3]; [2; 4; 5; 3]]; [[2; 5; 3]; [2; 4; 5; 3]]]
           0%nat [[2; 5; 3]; [2; 4; 5; 3]] 1%nat).
  - apply Forall_cons. split; [eexists; apply vocab_ab_init|].
    apply Forall_cons. split; [eexists; apply vocab_xy_init|]. constructor.
  - reflexivity.
  - vm_compute. left.
  - reflexivity.
  - reflexivity.
Defined.

(** ** Dataset: the batches of a pass *)

Lemma iter_saved ds n_lines shuffle argsort :
  well_formed ds n_lines → valid_policy ds →
  is_shuffle shuffle → is_argsort argsort →
  ∃ yb e, Dataset.iter shuffle argsort ds = (item_of ds <$> yb, e) ∧
          Forall (saved_batch ds) yb.
Proof.
  intros Hwf Hvalid Hshuffle Hargsort.
  destruct (decide (0 < n_files ds)%nat) as [Hfiles|Hnone].
  - destruct (iter_cases ds n_lines Hwf Hvalid Hfiles shuffle Hshuffle
                argsort Hargsort)
      as [[_ ->]|[[_ ->]|[_ (yb & -> & Hsaved & _)]]].
    + by exists [], (Some ValueError).
    + by exists [], None.
    + by exists yb, None.
  - exists [], (Some (AssertionError "Empty dataset")). split; [|done].
    unfold Dataset.iter. unfold n_files in Hnone.
    destruct (Dataset.File_Line_Idx ds); [done|]. simpl in Hnone. lia.
Qed.

Lemma iter_saved_batch ds n_lines shuffle argsort batch all :
  well_formed ds n_lines → valid_policy ds →
  is_shuffle shuffle → is_argsort argsort →
  (batch, all) ∈ (Dataset.iter shuffle argsort ds).1 → saved_batch ds batch.
Proof.
  intros Hwf Hvalid Hshuffle Hargsort Hin.
  destruct (iter_saved ds n_lines shuffle argsort) as (yb & e & Hiter & Hsaved);
    try done.
  rewrite Hiter in Hin. simpl in Hin.
  apply list_elem_of_fmap in Hin as (P & [= -> _] & HP).
  rewrite Forall_forall in Hsaved. by apply Hsaved.
Qed.

Lemma foldl_max_padded ds n P : ∀ a,
  2 ≤ a →
  foldl (λ acc pos, Z.max acc (len_at ds n pos + 2)) a P =
    Z.max a (max_raw ds n P + 2).
Proof.
  induction P as [|p P IH]; intros a Ha; simpl; [lia|].
  rewrite IH by lia. fold (max_raw ds n P). lia.
Qed.

Lemma max_padded_raw ds n P : P ≠ [] → max_padded ds n P = max_raw ds n P + 2.
Proof.
  destruct P as [|p P]; [done|]. intros _. unfold max_padded. simpl.
  pose proof (len_at_nonneg ds n p).
  rewrite foldl_max_padded by lia. fold (max_raw ds n P). lia.
Qed.

Lemma max_raw_ge ds n P p : p ∈ P → len_at ds n p ≤ max_raw ds n P.
Proof.
  induction P as [|q P IH]; [by intros ?%elem_of_nil|].
  intros [->|Hin]%elem_of_cons; simpl; fold (max_raw ds n P).
  - lia.
  - specialize (IH Hin). lia.
Qed.

Lemma singletons_concat {A} (l : list (list A)) :
  Forall (λ P, length P = 1%nat) l → l = (λ x, [x]) <$> concat l.
Proof.
  induction 1 as [|P l HP _ IH]; [done|].
  destruct P as [|x [|y P]]; try done. simpl. by f_equal.
Qed.

(** ** The batches respect the capacity *)

(** C3. Under the token policy every yielded batch satisfies, on every
    side, (largest raw length in the batch + 2) * (number of examples)
    <= capacity. The bound holds for every batch: an example whose padded
    length alone is over the capacity is never put in a batch, so the
    exception the statement allows for does not arise. *)
Theorem C3_token_capacity_bound
    (ds : Dataset.t) (n_lines : nat)
    (shuffle : nat → list nat → list nat) (argsort : list Z → list nat)
    (batch : list nat) (all : list (list (list Z))) (n : nat) :
  well_formed ds n_lines → is_shuffle shuffle → is_argsort argsort →
  Dataset.batch_type ds = "tokens" →
  (batch, all) ∈ (Dataset.iter shuffle argsort ds).1 →
  (n < n_files ds)%nat →
  (max_raw ds n batch + 2) * Z.of_nat (length batch) ≤ Dataset.batch_size ds.
Proof.
  intros Hwf Hshuffle Hargsort Htok Hin Hn.
  destruct (iter_saved_batch ds n_lines shuffle argsort batch all)
    as (Hne & Hcap & _); try done; [by right|].
  unfold within_capacity in Hcap. rewrite Htok in Hcap. simpl in Hcap.
  rewrite <- max_padded_raw by done. by apply Hcap.
Qed.

Lemma C3_token_capacity_bound_witness :
  (max_raw (ds_scenario "tokens" 8) 0 [1; 0]%nat + 2) *
    Z.of_nat (length [1; 0]%nat) ≤ 8.
Proof.
  apply (C3_token_capacity_bound (ds_scenario "tokens" 8) 2 shuffle_rev
           argsort_stable [1; 0]%nat
           [[[2; 5; 3]; [2; 4; 5; 3]]; [[2; 5; 3]; [2; 4; 5; 3]]] 0%nat).
  - apply ds_scenario_wf.
  - apply shuffle_rev_is_shuffle.
  - apply argsort_stable_is_argsort.
  - reflexivity.
  - vm_compute. left.
  - vm_compute. lia.
Defined.

(** C5. Under the sentence policy [add] rejects exactly when the
    accumulator already holds [batch_size] examples, whatever the lengths
    are, and otherwise accepts; hence, for a capacity that is not negative,
    no yielded batch holds more than [batch_size] examples. *)
Theorem C5_sentence_capacity :
  (∀ (b : Batch.t) (pos : nat) (lens : list Z),
     Batch.batch_type b = "sentences" →
     (Batch.len b = Batch.batch_size b →
      Batch.add b pos lens = (b, Ok false)) ∧
     (Batch.len b ≠ Batch.batch_size b →
      length lens = length (Batch.max_lens b) →
      Batch.add b pos lens = (accepted b pos lens, Ok true))) ∧
  (∀ (ds : Dataset.t) (n_lines : nat)
     (shuffle : nat → list nat → list nat) (argsort : list Z → list nat)
     (batch : list nat) (all : list (list (list Z))),
     well_formed ds n_lines → is_shuffle shuffle → is_argsort argsort →
     Dataset.batch_type ds = "sentences" → 0 ≤ Dataset.batch_size ds →
     (batch, all) ∈ (Dataset.iter shuffle argsort ds).1 →
     Z.of_nat (length batch) ≤ Dataset.batch_size ds).
Proof.
  split.
  - intros b pos lens Hty. split.
    + intros Heq. unfold Batch.add. rewrite Hty. simpl.
      by rewrite (proj2 (Z.eqb_eq _ _) Heq).
    + intros Hne Hlen. rewrite add_sentences by (done || by rewrite Hty).
      by rewrite bool_decide_eq_false_2.
  - intros ds n_lines shuffle argsort batch all Hwf Hshuffle Hargsort Hty Hcap Hin.
    destruct (iter_saved_batch ds n_lines shuffle argsort batch all)
      as (_ & Hbound & _); try done; [by left|].
    unfold within_capacity in Hbound. rewrite Hty in Hbound. by apply Hbound.
Qed.

Lemma C5_sentence_capacity_witness :
  Batch.add (Batch.mk 1 "sentences" [7%nat] [3; 3]) 8 [9; 9] =
    (Batch.mk 1 "sentences" [7%nat] [3; 3], Ok false) ∧
  Batch.add (Batch.mk 2 "sentences" [7%nat] [3; 3]) 8 [9; 2] =
    (Batch.mk 2 "sentences" [7; 8]%nat [9; 3], Ok true) ∧
  Z.of_nat (length [1; 0]%nat) ≤ 10.
Proof.
  destruct C5_sentence_capacity as [Hadd Hiter].
  split; [|split].
  - by apply (Hadd (Batch.mk 1 "sentences" [7%nat] [3; 3]) 8%nat [9; 9]).
  - by apply (Hadd (Batch.mk 2 "sentences" [7%nat] [3; 3]) 8%nat [9; 2]).
  - apply (Hiter (ds_scenario "sentences" 10) 2%nat shuffle_id argsort_stable
             [1; 0]%nat [[[2; 5; 3]; [2; 4; 5; 3]]; [[2; 5; 3]; [2; 4; 5; 3]]]).
    + apply ds_scenario_wf.
    + apply shuffle_id_is_shuffle.
    + apply argsort_stable_is_argsort.
    + reflexivity.
    + simpl. lia.
    + vm_compute. left.
Defined.

(** ** Examples that do not fit alone *)

(** C1, as the code has it. Under the token policy an example whose padded
    length is over the capacity on some side is rejected by the second
    [add] too, the one into the emptied accumulator, which stays empty; the
    example is in no yielded batch. *)
Theorem C1_oversized_example_dropped
    (ds : Dataset.t) (n_lines : nat)
    (shuffle : nat → list nat → list nat) (argsort : list Z → list nat)
    (pos n : nat) :
  well_formed ds n_lines → is_shuffle shuffle → is_argsort argsort →
  Dataset.batch_type ds = "tokens" → (pos < n_lines)%nat →
  (n < n_files ds)%nat → len_at ds n pos + 2 > Dataset.batch_size ds →
  (∀ b, Batch.batch_size b = Dataset.batch_size ds →
        Batch.batch_type b = "tokens" →
        Dataset.padded_lens ds (n_files ds) pos = Ok (lens_of ds pos) ∧
        Batch.add (Batch.reset b (n_files ds)) pos (lens_of ds pos) =
          (Batch.reset b (n_files ds), Ok false)) ∧
  (∀ batch all, (batch, all) ∈ (Dataset.iter shuffle argsort ds).1 →
                pos ∉ batch).
Proof.
  intros Hwf Hshuffle Hargsort Htok Hpos Hn Hover.
  assert (¬ fits_alone ds pos) as Hnofit.
  { unfold fits_alone. rewrite Htok. simpl. intros Hall.
    apply Is_true_true in Hall. rewrite forallb_forall in Hall.
    specialize (Hall n). rewrite Z.leb_le in Hall.
    assert (len_at ds n pos + 2 ≤ Dataset.batch_size ds); [|lia].
    apply Hall, list_elem_of_In, elem_of_seq. lia. }
  split.
  - intros b Hsz Hty. split; [by apply (padded_lens_Ok ds n_lines Hwf)|].
    destruct (add_cases ds (Batch.reset b (n_files ds)) pos)
      as [(_ & _ & Hfit)|(Hadd & _)]; [|done|done].
    apply acc_inv_reset; congruence.
  - intros batch all Hin Hbatch.
    destruct (iter_saved_batch ds n_lines shuffle argsort batch all)
      as (_ & _ & Halone); try done; [by right|].
    rewrite Forall_forall in Halone. by apply Hnofit, Halone.
Qed.

Lemma C1_oversized_example_dropped_witness :
  (Dataset.padded_lens (ds_scenario "tokens" 3) 2 0 = Ok [4; 4] ∧
   Batch.add (Batch.reset (Batch.mk 3 "tokens" [1%nat] [3; 3]) 2) 0 [4; 4] =
     (Batch.reset (Batch.mk 3 "tokens" [1%nat] [3; 3]) 2, Ok false)) ∧
  0%nat ∉ [1%nat].
Proof.
  destruct (C1_oversized_example_dropped (ds_scenario "tokens" 3) 2
              shuffle_id argsort_stable 0 0) as [Hadd Hiter].
  - apply ds_scenario_wf.
  - apply shuffle_id_is_shuffle.
  - apply argsort_stable_is_argsort.
  - reflexivity.
  - lia.
  - vm_compute. lia.
  - vm_compute. reflexivity.
  - split.
    + by apply (Hadd (Batch.mk 3 "tokens" [1%nat] [3; 3])).
    + apply (Hiter [1%nat] [[[2; 5; 3]]; [[2; 5; 3]]]). vm_compute. left.
Defined.

(** C1 fails as stated: with capacity 3 the line [a b], of padded length
    4, is in no batch of the pass; only the line [b] is yielded. *)
Lemma C1_counterexample :
  Dataset.batch_type (ds_scenario "tokens" 3) = "tokens" ∧
  len_at (ds_scenario "tokens" 3) 0 0 + 2 > Dataset.batch_size (ds_scenario "tokens" 3) ∧
  Dataset.iter shuffle_id argsort_stable (ds_scenario "tokens" 3) =
    ([([1%nat], [[[2; 5; 3]]; [[2; 5; 3]]])], None) ∧
  ¬ ∃ y, y ∈ (Dataset.iter shuffle_id argsort_stable (ds_scenario "tokens" 3)).1 ∧
         0%nat ∈ y.1.
Proof.
  split; [done|]. split; [by vm_compute|]. split; [by vm_compute|].
  intros (y & Hy & H0). vm_compute in Hy.
  apply list_elem_of_singleton in Hy as ->. simpl in H0.
  by apply list_elem_of_singleton in H0.
Qed.

(** ** The positions a pass yields *)

Lemma fst_item_of ds (yb : list (list nat)) : (item_of ds <$> yb).*1 = yb.
Proof. induction yb as [|P yb IH]; [done|]. simpl. by f_equal. Qed.

Lemma keep_spec ds pos :
  keep ds pos ↔
  Dataset.max_length ds = 0 ∨
  ∀ n, (n < n_files ds)%nat → len_at ds n pos ≤ Dataset.max_length ds.
Proof.
  unfold keep. rewrite orb_True, Is_true_true, Is_true_true, Z.eqb_eq.
  rewrite forallb_forall. apply or_iff_compat_l. split.
  - intros H n Hn. apply Z.leb_le, H, list_elem_of_In, elem_of_seq. lia.
  - intros H n Hn%list_elem_of_In%elem_of_seq. apply Z.leb_le, H. lia.
Qed.

Lemma fits_alone_spec ds pos :
  fits_alone ds pos ↔
  if (Dataset.batch_type ds =? "tokens")%string
  then ∀ n, (n < n_files ds)%nat → len_at ds n pos + 2 ≤ Dataset.batch_size ds
  else Dataset.batch_size ds ≠ 0.
Proof.
  unfold fits_alone. destruct (Dataset.batch_type ds =? "tokens")%string.
  - rewrite Is_true_true, forallb_forall. split.
    + intros H n Hn. apply Z.leb_le, H, list_elem_of_In, elem_of_seq. lia.
    + intros H n Hn%list_elem_of_In%elem_of_seq. apply Z.leb_le, H. lia.
  - rewrite Is_true_true, negb_true_iff, Z.eqb_neq. split; intros ? ?; lia.
Qed.

(** C2, as the code has it. For a non-empty corpus and a shard size that
    is not negative, a pass ends without an exception and the positions of
    its batches, taken together, have no duplicates and are exactly the
    positions that pass the length filter (no filter when [max_length] is
    0) and that an empty accumulator accepts: under the token policy those
    whose padded length is within the capacity on every side, under the
    sentence policy all of them unless the capacity is 0. *)
Theorem C2_yielded_positions
    (ds : Dataset.t) (n_lines : nat)
    (shuffle : nat → list nat → list nat) (argsort : list Z → list nat) :
  well_formed ds n_lines → valid_policy ds →
  (0 < n_files ds)%nat → (0 < n_lines)%nat → 0 ≤ Dataset.shard_size ds →
  is_shuffle shuffle → is_argsort argsort →
  ∃ ys, Dataset.iter shuffle argsort ds = (ys, None) ∧
        NoDup (concat ys.*1) ∧
        ∀ pos, pos ∈ concat ys.*1 ↔
          (pos < n_lines)%nat ∧
          (Dataset.max_length ds = 0 ∨
           ∀ n, (n < n_files ds)%nat →
                len_at ds n pos ≤ Dataset.max_length ds) ∧
          (if (Dataset.batch_type ds =? "tokens")%string
           then ∀ n, (n < n_files ds)%nat →
                     len_at ds n pos + 2 ≤ Dataset.batch_size ds
           else Dataset.batch_size ds ≠ 0).
Proof.
  intros Hwf Hvalid Hfiles Hlines Hsize Hshuffle Hargsort.
  destruct (iter_cases ds n_lines Hwf Hvalid Hfiles shuffle Hshuffle
              argsort Hargsort)
    as [[Hz _]|[[Hneg _]|[_ (yb & -> & _ & Hperm)]]].
  - unfold Dataset.shard_size_of in Hz.
    destruct (Z.eqb_spec (Dataset.shard_size ds) 0); lia.
  - unfold Dataset.shard_size_of in Hneg.
    destruct (Z.eqb_spec (Dataset.shard_size ds) 0); lia.
  - unfold emitted in Hperm.
    eexists. split; [reflexivity|]. rewrite fst_item_of. split.
    + rewrite Hperm. apply NoDup_filter, NoDup_filter, NoDup_seq.
    + intros pos. rewrite Hperm, !list_elem_of_filter, elem_of_seq.
      rewrite keep_spec, fits_alone_spec. intuition lia.
Qed.

Lemma C2_yielded_positions_witness :
  ∃ ys, Dataset.iter shuffle_rev argsort_stable (ds_scenario "tokens" 3) =
          (ys, None) ∧
        NoDup (concat ys.*1) ∧
        ∀ pos, pos ∈ concat ys.*1 ↔
          (pos < 2)%nat ∧
          (0 = 0 ∨ ∀ n, (n < 2)%nat →
                        len_at (ds_scenario "tokens" 3) n pos ≤ 0) ∧
          (∀ n, (n < 2)%nat → len_at (ds_scenario "tokens" 3) n pos + 2 ≤ 3).
Proof.
  apply (C2_yielded_positions (ds_scenario "tokens" 3) 2 shuffle_rev
           argsort_stable).
  - apply ds_scenario_wf.
  - by right.
  - vm_compute. lia.
  - lia.
  - simpl. lia.
  - apply shuffle_rev_is_shuffle.
  - apply argsort_stable_is_argsort.
Defined.

(** C2 fails as stated: with no length filter and capacity 3 under the
    token policy, position 0 of the two-line corpus is omitted. *)
Lemma C2_counterexample :
  Dataset.max_length (ds_scenario "tokens" 3) = 0 ∧
  Dataset.iter shuffle_id argsort_stable (ds_scenario "tokens" 3) =
    ([([1%nat], [[[2; 5; 3]]; [[2; 5; 3]]])], None) ∧
  ¬ concat (Dataset.iter shuffle_id argsort_stable (ds_scenario "tokens" 3)).1.*1
      ≡ₚ seq 0 2.
Proof.
  split; [done|]. split; [by vm_compute|].
  intros Hperm%Permutation_length. by vm_compute in Hperm.
Qed.

(** ** Sorting within a shard *)

(** C7, as the code has it. The kept positions of a shard are reordered by
    [np.argsort] of their side-0 raw lengths: the result holds the same
    positions, in an order in which the side-0 raw length does not
    decrease. (Which of two positions of equal length comes first is left
    to [np.argsort].) *)
Theorem C7_shard_sorted_by_length
    (ds : Dataset.t) (n_lines : nat) (argsort : list Z → list nat)
    (shard : list nat) :
  well_formed ds n_lines → (0 < n_files ds)%nat → is_argsort argsort →
  Forall (λ pos, (pos < n_lines)%nat) shard →
  ∃ shard_pos shard_len sorted,
    Dataset.build_shard ds (n_files ds) shard [] [] = Ok (shard_pos, shard_len) ∧
    shard_pos = filter (λ pos, keep ds pos) shard ∧
    shard_len = len_at ds 0 <$> shard_pos ∧
    Dataset.sort_shard argsort shard_pos shard_len = Ok sorted ∧
    sorted ≡ₚ shard_pos ∧
    Sorted Z.le (len_at ds 0 <$> sorted).
Proof.
  intros Hwf Hfiles Hargsort Hshard.
  exists (filter (λ pos, keep ds pos) shard),
         (len_at ds 0 <$> filter (λ pos, keep ds pos) shard).
  set (shard_pos := filter (λ pos, keep ds pos) shard).
  destruct (sort_shard_Ok argsort shard_pos (len_at ds 0 <$> shard_pos))
    as (sorted & Hsort & Hsorted & Hperm).
  { apply Hargsort. }
  { by rewrite length_fmap. }
  exists sorted. rewrite (build_shard_Ok ds n_lines Hwf) by done.
  repeat split; try done.
  destruct (Hargsort (len_at ds 0 <$> shard_pos)) as [Hidx Hkeys].
  replace (len_at ds 0 <$> sorted)
    with (keys_of (len_at ds 0 <$> shard_pos) (argsort (len_at ds 0 <$> shard_pos)));
    [done|].
  rewrite Hsorted, <- list_fmap_compose. unfold keys_of.
  apply list_fmap_ext. intros _ i Hi%list_elem_of_lookup_2.
  rewrite Hidx in Hi. apply elem_of_seq in Hi. rewrite length_fmap in Hi.
  destruct (lookup_lt_is_Some_2 shard_pos i) as [p Hp]; [lia|].
  simpl. by rewrite list_lookup_fmap, Hp.
Qed.

Lemma C7_shard_sorted_by_length_witness :
  ∃ shard_pos shard_len sorted,
    Dataset.build_shard (ds_scenario "tokens" 8) 2 [0; 1]%nat [] [] =
      Ok (shard_pos, shard_len) ∧
    shard_pos = filter (λ pos, keep (ds_scenario "tokens" 8) pos) [0; 1]%nat ∧
    shard_len = len_at (ds_scenario "tokens" 8) 0 <$> shard_pos ∧
    Dataset.sort_shard argsort_stable shard_pos shard_len = Ok sorted ∧
    sorted ≡ₚ shard_pos ∧
    Sorted Z.le (len_at (ds_scenario "tokens" 8) 0 <$> sorted).
Proof.
  apply (C7_shard_sorted_by_length (ds_scenario "tokens" 8) 2 argsort_stable
           [0; 1]%nat).
  - apply ds_scenario_wf.
  - vm_compute. lia.
  - apply argsort_stable_is_argsort.
  - repeat constructor.
Defined.

Lemma ds_ties_init :
  Dataset.init flatten_count corpus_ties [vocab_ab] 0 4096 "tokens" 100 =
    Ok ds_ties.
Proof. reflexivity. Qed.

(** C7 fails as stated. In the engine built from a file whose lines have 3,
    3, 1 and 2 tokens, the shard [0, 1, 2, 3] has the side-0 lengths
    [3, 3, 1, 2]; an argsort that returns [2, 3, 1, 0] for them, an order
    in which the lengths do not decrease, puts position 1 before position
    0, although the two have the same length and 0 came first in the
    shard. The pass then yields the batch [2, 3, 1, 0]. *)
Lemma C7_counterexample :
  Dataset.init flatten_count corpus_ties [vocab_ab] 0 4096 "tokens" 100 =
    Ok ds_ties ∧
  is_argsort argsort_reversing ∧
  Dataset.build_shard ds_ties 1 [0; 1; 2; 3]%nat [] [] =
    Ok ([0; 1; 2; 3]%nat, [3; 3; 1; 2]) ∧
  argsort_reversing [3; 3; 1; 2] = [2; 3; 1; 0]%nat ∧
  Dataset.sort_shard argsort_reversing [0; 1; 2; 3]%nat [3; 3; 1; 2] =
    Ok [2; 3; 1; 0]%nat ∧
  len_at ds_ties 0 0 = len_at ds_ties 0 1 ∧
  ¬ keeps_tie_order (len_at ds_ties 0) [0; 1; 2; 3]%nat [2; 3; 1; 0]%nat ∧
  (Dataset.iter shuffle_id argsort_reversing ds_ties).1.*1 = [[2; 3; 1; 0]%nat].
Proof.
  split; [reflexivity|]. split; [apply argsort_reversing_is_argsort|].
  split; [by vm_compute|]. split; [by vm_compute|]. split; [by vm_compute|].
  split; [by vm_compute|]. split; [|by vm_compute].
  intros Hkeep.
  destruct (Hkeep 0 1 0 1)%nat as (a' & b' & Ha & Hb & Hlt); try done; [lia|].
  destruct a' as [|[|[|[|a']]]]; destruct b' as [|[|[|[|b']]]];
    simpl in *; try done; lia.
Qed.

(** ** Iterating over an empty corpus *)




(** ** The accumulator under the token policy *)

Lemma scenario_tokens_4 shuffle argsort :
  is_shuffle shuffle → is_argsort argsort →
  ∃ yb, Dataset.iter shuffle argsort (ds_scenario "tokens" 4) =
          (item_of (ds_scenario "tokens" 4) <$> yb, None) ∧
        yb ≡ₚ [[0%nat]; [1%nat]].
Proof.
  intros Hshuffle Hargsort. set (ds := ds_scenario "tokens" 4).
  destruct (iter_cases ds 2 (ds_scenario_wf _ _) (or_intror eq_refl)
              ltac:(vm_compute; lia) shuffle Hshuffle argsort Hargsort)
    as [[Hz _]|[[Hneg _]|[_ (yb & -> & Hsaved & Hperm)]]]; [done..|].
  exists yb. split; [done|].
  change (emitted ds (seq 0 2)) with [0%nat; 1%nat] in Hperm.
  assert (Forall (λ P, length P = 1%nat) yb) as Hone.
  { apply Forall_forall. intros P HP.
    rewrite Forall_forall in Hsaved.
    destruct (Hsaved P HP) as (Hne & Hcap & _).
    destruct P as [|p P]; [done|].
    assert (p ∈ [0%nat; 1%nat]) as Hp.
    { rewrite <- Hperm. apply list_elem_of_In, in_concat. exists (p :: P).
      split; [by apply list_elem_of_In|by left]. }
    specialize (Hcap 0%nat ltac:(vm_compute; lia)).
    rewrite max_padded_raw in Hcap by done.
    pose proof (max_raw_ge ds 0 (p :: P) p ltac:(left)) as Hge.
    assert (1 ≤ len_at ds 0 p) as Hlen.
    { apply elem_of_cons in Hp as [->|Hp]; [by vm_compute|].
      apply list_elem_of_singleton in Hp as ->. by vm_compute. }
    change (Dataset.batch_size ds) with 4 in Hcap.
    simpl length in *. nia. }
  rewrite (singletons_concat yb Hone), Hperm. done.
Qed.

(** C4. Under the token policy, with one length per side, [add] rejects
    when on some side [max(max_lens[i], lens[i]) * (len + 1)] is over the
    capacity, and then returns [False] with the accumulator as it was;
    otherwise it appends the position, sets every maximum to the larger of
    the two and returns [True]. In the spec's scenario (capacity 4) the
    line of padded length 3 is accepted, the line of padded length 4 is
    then rejected, and the pass yields the two positions as two batches of
    one example. *)
Theorem C4_token_add :
  (∀ (b : Batch.t) (pos : nat) (lens : list Z),
     Batch.batch_type b = "tokens" → length lens = length (Batch.max_lens b) →
     (over_capacity b lens → Batch.add b pos lens = (b, Ok false)) ∧
     (¬ over_capacity b lens →
      Batch.add b pos lens = (accepted b pos lens, Ok true))) ∧
  (Batch.add (Batch.reset (Batch.mk 4 "tokens" [] []) 2) 1 [3; 3] =
     (Batch.mk 4 "tokens" [1%nat] [3; 3], Ok true) ∧
   over_capacity (Batch.mk 4 "tokens" [1%nat] [3; 3]) [4; 4] ∧
   Batch.add (Batch.mk 4 "tokens" [1%nat] [3; 3]) 0 [4; 4] =
     (Batch.mk 4 "tokens" [1%nat] [3; 3], Ok false)) ∧
  (∀ (shuffle : nat → list nat → list nat) (argsort : list Z → list nat),
     is_shuffle shuffle → is_argsort argsort →
     ∃ yb, Dataset.iter shuffle argsort (ds_scenario "tokens" 4) =
             (item_of (ds_scenario "tokens" 4) <$> yb, None) ∧
           yb ≡ₚ [[0%nat]; [1%nat]]).
Proof.
  split; [|split].
  - intros b pos lens Hty Hlen. rewrite add_tokens by done.
    rewrite over_capacity_Forall2 by done. split.
    + intros Hover. by rewrite bool_decide_eq_false_2.
    + intros Hfits%dec_stable. by rewrite bool_decide_eq_true_2.
  - split; [done|]. split; [|done].
    exists 0%nat, 3, 4. by vm_compute.
  - apply scenario_tokens_4.
Qed.

Lemma C4_token_add_witness :
  Batch.add (Batch.mk 4 "tokens" [1%nat] [3; 3]) 0 [4; 4] =
    (Batch.mk 4 "tokens" [1%nat] [3; 3], Ok false) ∧
  Batch.add (Batch.mk 8 "tokens" [1%nat] [3; 3]) 0 [4; 2] =
    (Batch.mk 8 "tokens" [1; 0]%nat [4; 3], Ok true) ∧
  ∃ yb, Dataset.iter shuffle_rev argsort_stable (ds_scenario "tokens" 4) =
          (item_of (ds_scenario "tokens" 4) <$> yb, None) ∧
        yb ≡ₚ [[0%nat]; [1%nat]].
Proof.
  destruct C4_token_add as (Hadd & _ & Hiter).
  split; [|split].
  - apply (Hadd (Batch.mk 4 "tokens" [1%nat] [3; 3]) 0%nat [4; 4]); [done..|].
    exists 0%nat, 3, 4. by vm_compute.
  - apply (Hadd (Batch.mk 8 "tokens" [1%nat] [3; 3]) 0%nat [4; 2]); [done..|].
    intros (i & m & l & Hm & Hl & Hgt).
    destruct i as [|[|i]]; simpl in Hm, Hl; try done;
      injection Hm as <-; injection Hl as <-; by vm_compute in Hgt.
  - apply (Hiter shuffle_rev argsort_stable).
    + apply shuffle_rev_is_shuffle.
    + apply argsort_stable_is_argsort.
Defined.

(** * Further properties of the code *)

(** ** Vocab: construction and lookups *)

Lemma reserved_prefix_iff (lines : list string) :
  (Vocab.last_idx "<pad>" lines = Some 0%nat ∧
   Vocab.last_idx "<unk>" lines = Some 1%nat ∧
   Vocab.last_idx "<bos>" lines = Some 2%nat ∧
   Vocab.last_idx "<eos>" lines = Some 3%nat) ↔
  ∃ rest, lines = Vocab.reserved ++ rest ∧
          Forall (λ m, m ∉ rest) Vocab.reserved.
Proof.
  rewrite !last_idx_Some. split.
  - intros ((H0 & D0) & (H1 & D1) & (H2 & D2) & (H3 & D3)).
    destruct lines as [|a [|b [|c [|d rest]]]]; try done.
    simpl in *. injection H0 as ->. injection H1 as ->.
    injection H2 as ->. injection H3 as ->. rewrite drop_0 in *.
    exists rest. split; [done|]. unfold Vocab.reserved.
    repeat (apply Forall_cons; split); [set_solver..|constructor].
  - intros (rest & -> & Hall). unfold Vocab.reserved in *.
    apply Forall_cons in Hall as [Ha Hall]. apply Forall_cons in Hall as [Hb Hall].
    apply Forall_cons in Hall as [Hc Hall]. apply Forall_cons in Hall as [Hd _].
    simpl. rewrite drop_0. rewrite !not_elem_of_cons.
    repeat split; done.
Qed.

(** X1. [Vocab.__init__] succeeds exactly on the lists of lines that start
    with the four markers in order and do not repeat any of them further
    down: a later occurrence of a marker takes over its id in the dict. *)
Theorem vocab_init_exact (lines : list string) :
  is_ok (Vocab.init lines) ↔
  ∃ rest, lines = Vocab.reserved ++ rest ∧
          Forall (λ m, m ∉ rest) Vocab.reserved.
Proof. by rewrite init_ok_iff, reserved_prefix_iff. Qed.

Lemma assert_id_cases l s i msg :
  ((s ∉ l) ∧ Vocab.assert_id (Vocab.dict_of_enumerate 0 l ∅) s i msg =
               Raise (KeyError s)) ∨
  (s ∈ l ∧ (Vocab.assert_id (Vocab.dict_of_enumerate 0 l ∅) s i msg = Ok () ∨
            Vocab.assert_id (Vocab.dict_of_enumerate 0 l ∅) s i msg =
              Raise (AssertionError msg))).
Proof.
  unfold Vocab.assert_id. rewrite lookup_dict_of_enumerate, lookup_empty.
  destruct (Vocab.last_idx s l) as [j|] eqn:Hj.
  - right. split.
    + apply last_idx_Some in Hj as [Hj _]. by eapply list_elem_of_lookup_2.
    + destruct (_ =? _); auto.
  - left. split; [by apply last_idx_None|done].
Qed.

(** X2. The kind of error tells what is wrong with the vocabulary: when
    the pad marker is missing the constructor raises [KeyError] for it;
    when all four markers are present but construction fails, the error is
    an [AssertionError]. *)
Theorem vocab_init_error_kind (lines : list string) :
  ("<pad>" ∉ lines → Vocab.init lines = Raise (KeyError "<pad>")) ∧
  (Forall (λ m, m ∈ lines) Vocab.reserved → ¬ is_ok (Vocab.init lines) →
   ∃ msg, Vocab.init lines = Raise (AssertionError msg)).
Proof.
  split.
  - intros Hno. unfold Vocab.init.
    destruct (assert_id_cases lines "<pad>" 0 "<pad> must exist in vocab with id=0")
      as [[_ ->]|[? _]]; done.
  - unfold Vocab.reserved. intros Hall Hfail.
    apply Forall_cons in Hall as [Ha Hall]. apply Forall_cons in Hall as [Hb Hall].
    apply Forall_cons in Hall as [Hc Hall]. apply Forall_cons in Hall as [Hd _].
    revert Hfail. unfold Vocab.init.
    destruct (assert_id_cases lines "<pad>" 0 "<pad> must exist in vocab with id=0")
      as [[? _]|[_ [-> | ->]]]; [done| |by eauto].
    destruct (assert_id_cases lines "<unk>" 1 "<unk> must exist in vocab with id=1")
      as [[? _]|[_ [-> | ->]]]; [done| |by eauto].
    destruct (assert_id_cases lines "<bos>" 2 "<bos> must exist in vocab with id=2")
      as [[? _]|[_ [-> | ->]]]; [done| |by eauto].
    destruct (assert_id_cases lines "<eos>" 3 "<eos> must exist in vocab with id=3")
      as [[? _]|[_ [-> | ->]]]; [done| |by eauto].
    intros Hfail. destruct Hfail. by eexists.
Qed.

Lemma vocab_init_error_kind_witness :
  Vocab.init ["<unk>"; "<bos>"; "<eos>"; "a"] = Raise (KeyError "<pad>") ∧
  ∃ msg, Vocab.init ["<pad>"; "<unk>"; "<bos>"; "<eos>"; "<unk>"] =
           Raise (AssertionError msg).
Proof.
  split.
  - apply (vocab_init_error_kind ["<unk>"; "<bos>"; "<eos>"; "a"]).
    apply (bool_decide_unpack _). by vm_compute.
  - apply (vocab_init_error_kind ["<pad>"; "<unk>"; "<bos>"; "<eos>"; "<unk>"]).
    + apply (bool_decide_unpack _). by vm_compute.
    + intros [v Hv]. by vm_compute in Hv.
Defined.

Lemma init_lines lines v :
  Vocab.init lines = Ok v →
  lines !! 1%nat = Some "<unk>" ∧ (4 ≤ length lines)%nat.
Proof.
  intros Hv. assert (is_ok (Vocab.init lines)) as Hok by by eexists.
  apply init_ok_iff in Hok as (_ & H1 & _ & H3).
  apply last_idx_Some in H1 as [H1 _], H3 as [H3 _].
  split; [done|]. apply lookup_lt_Some in H3. lia.
Qed.

Lemma getitem_str_cases lines v tok :
  Vocab.init lines = Ok v →
  (∃ j, Vocab.last_idx tok lines = Some j ∧
        Vocab.tok_to_idx v !! tok = Some (Z.of_nat j) ∧
        Vocab.getitem_str v tok = Z.of_nat j) ∨
  ((tok ∉ lines) ∧ Vocab.tok_to_idx v !! tok = None ∧
   Vocab.getitem_str v tok = 1).
Proof.
  intros (_ & Hd & Hunk & _)%init_fields. unfold Vocab.getitem_str.
  rewrite Hd, lookup_dict_of_enumerate, lookup_empty, Hunk.
  destruct (Vocab.last_idx tok lines) as [j|] eqn:Hj.
  - left. exists j. by rewrite Z.add_0_l.
  - right. by apply last_idx_None in Hj.
Qed.

(** X3. In a constructed vocabulary the string branch of [__contains__]
    answers membership in the vocabulary file, and a token that is not in
    the file is mapped to id 1, the id at which the table holds [<unk>]. *)
Theorem vocab_unknown_token (lines : list string) (v : Vocab.t) (tok : string) :
  Vocab.init lines = Ok v →
  (Vocab.contains_str v tok = true ↔ tok ∈ lines) ∧
  (tok ∉ lines →
   Vocab.getitem_str v tok = 1 ∧ Vocab.getitem_int v 1 = Ok "<unk>").
Proof.
  intros Hv. pose proof (init_lines _ _ Hv) as [Hunk _].
  pose proof (init_fields _ _ Hv) as (Hl & _).
  unfold Vocab.contains_str. rewrite bool_decide_eq_true.
  destruct (getitem_str_cases lines v tok Hv)
    as [(j & Hj & -> & Hget)|(Hno & -> & Hget)].
  - apply last_idx_Some in Hj as [Hj _].
    apply list_elem_of_lookup_2 in Hj. split; [by split; eauto|done].
  - split; [split; [by intros [? ?]|done]|]. intros _. split; [done|].
    unfold Vocab.getitem_int. rewrite Hl. by apply (py_index_nat lines 1).
Qed.

Lemma vocab_unknown_token_witness :
  (Vocab.contains_str vocab_ab "zz" = true ↔
   "zz" ∈ ["<pad>"; "<unk>"; "<bos>"; "<eos>"; "a"; "b"]) ∧
  Vocab.getitem_str vocab_ab "zz" = 1 ∧ Vocab.getitem_int vocab_ab 1 = Ok "<unk>".
Proof.
  destruct (vocab_unknown_token _ vocab_ab "zz" vocab_ab_init) as [Hin Hunk].
  split; [done|]. apply Hunk. apply (bool_decide_unpack _). by vm_compute.
Defined.

Lemma getitem_str_position lines v tok :
  Vocab.init lines = Ok v →
  ∃ j x, Vocab.getitem_str v tok = Z.of_nat j ∧ lines !! j = Some x.
Proof.
  intros Hv. pose proof (init_lines _ _ Hv) as [Hunk _].
  destruct (getitem_str_cases lines v tok Hv)
    as [(j & Hj & _ & ->)|(_ & _ & ->)].
  - apply last_idx_Some in Hj as [Hj _]. by exists j, tok.
  - by exists 1%nat, "<unk>".
Qed.

(** X4. Every id the string branch of [__getitem__] returns in a
    constructed vocabulary is a position of the table: it lies in
    [0, len), is reported as contained and can be looked up. *)
Theorem vocab_ids_in_range (lines : list string) (v : Vocab.t) (tok : string) :
  Vocab.init lines = Ok v →
  0 ≤ Vocab.getitem_str v tok < Vocab.len v ∧
  Vocab.contains_int v (Vocab.getitem_str v tok) = true ∧
  is_ok (Vocab.getitem_int v (Vocab.getitem_str v tok)).
Proof.
  intros Hv. pose proof (init_fields _ _ Hv) as (Hl & _).
  destruct (getitem_str_position lines v tok Hv) as (j & x & -> & Hj).
  pose proof (lookup_lt_Some _ _ _ Hj) as Hlt.
  unfold Vocab.contains_int, Vocab.getitem_int, Vocab.len. rewrite Hl.
  split; [lia|]. split; [apply Z.ltb_lt; lia|].
  exists x. by apply py_index_nat.
Qed.

Lemma vocab_ids_in_range_witness :
  0 ≤ Vocab.getitem_str vocab_ab "b" < Vocab.len vocab_ab ∧
  Vocab.contains_int vocab_ab (Vocab.getitem_str vocab_ab "b") = true ∧
  is_ok (Vocab.getitem_int vocab_ab (Vocab.getitem_str vocab_ab "b")).
Proof. apply (vocab_ids_in_range _ vocab_ab "b" vocab_ab_init). Defined.

Lemma last_idx_le k l j i :
  Vocab.last_idx k l = Some j → l !! i = Some k → (i ≤ j)%nat.
Proof.
  intros [_ Hdrop]%last_idx_Some Hi.
  destruct (decide (i ≤ j)%nat) as [|Hgt]; [done|].
  exfalso. apply Hdrop. apply list_elem_of_lookup. exists (i - S j)%nat.
  rewrite lookup_drop. replace (S j + (i - S j))%nat with i by lia. done.
Qed.

(** X5. In a constructed vocabulary, looking up the token stored at a
    position [i] of the table gives back the last position at which that
    token occurs, which is [i] itself when the lines of the vocabulary file
    are distinct. *)
Theorem vocab_id_roundtrip (lines : list string) (v : Vocab.t) (i : Z) :
  Vocab.init lines = Ok v → 0 ≤ i < Vocab.len v →
  ∃ tok, Vocab.getitem_int v i = Ok tok ∧
         i ≤ Vocab.getitem_str v tok ∧
         Vocab.getitem_int v (Vocab.getitem_str v tok) = Ok tok ∧
         (NoDup lines → Vocab.getitem_str v tok = i).
Proof.
  intros Hv Hi. pose proof (init_fields _ _ Hv) as (Hl & _).
  unfold Vocab.len in Hi. rewrite Hl in Hi.
  destruct (lookup_lt_is_Some_2 lines (Z.to_nat i)) as [tok Htok]; [lia|].
  exists tok. unfold Vocab.getitem_int. rewrite Hl.
  split; [rewrite <- (Z2Nat.id i) by lia; by apply py_index_nat|].
  destruct (getitem_str_cases lines v tok Hv)
    as [(j & Hj & _ & ->)|(Hno & _)].
  - pose proof (last_idx_le _ _ _ _ Hj Htok).
    apply last_idx_Some in Hj as [Hj _].
    split; [lia|]. split; [by apply py_index_nat|].
    intros Hnd. pose proof (NoDup_lookup _ _ _ _ Hnd Hj Htok). lia.
  - destruct Hno. by eapply list_elem_of_lookup_2.
Qed.

Lemma vocab_id_roundtrip_witness :
  ∃ tok, Vocab.getitem_int vocab_ab 4 = Ok tok ∧
         4 ≤ Vocab.getitem_str vocab_ab tok ∧
         Vocab.getitem_int vocab_ab (Vocab.getitem_str vocab_ab tok) = Ok tok ∧
         (NoDup ["<pad>"; "<unk>"; "<bos>"; "<eos>"; "a"; "b"] →
          Vocab.getitem_str vocab_ab tok = 4).
Proof.
  apply (vocab_id_roundtrip _ vocab_ab 4 vocab_ab_init).
  unfold Vocab.len. simpl. lia.
Defined.

(** X6. The integer branch of [__getitem__] raises [IndexError] for every
    id at or above the size and for every id below minus the size;
    [__contains__] still answers [True] for the latter. *)
Theorem vocab_getitem_out_of_range (v : Vocab.t) (i : Z) :
  (Vocab.len v ≤ i ∨ i < - Vocab.len v →
   Vocab.getitem_int v i = Raise IndexError) ∧
  (i < - Vocab.len v →
   Vocab.contains_int v i = true ∧ Vocab.getitem_int v i = Raise IndexError).
Proof.
  assert (Vocab.len v ≤ i ∨ i < - Vocab.len v →
          Vocab.getitem_int v i = Raise IndexError) as Hraise.
  { unfold Vocab.getitem_int, py_index, Vocab.len. intros [Hhi|Hlo].
    - destruct (Z.ltb_spec i 0); [lia|].
      destruct (Z.ltb_spec i 0); [lia|].
      by destruct (Z.leb_spec (Z.of_nat (length (Vocab.idx_to_tok v))) i); [|lia].
    - destruct (Z.ltb_spec i 0); [|lia].
      by destruct (Z.ltb_spec (i + Z.of_nat (length (Vocab.idx_to_tok v))) 0);
        [|lia]. }
  split; [done|]. intros Hlo. split; [|by auto].
  unfold Vocab.contains_int, Vocab.len in *. apply Z.ltb_lt. lia.
Qed.

Lemma vocab_getitem_out_of_range_witness :
  Vocab.getitem_int vocab_ab 6 = Raise IndexError ∧
  Vocab.contains_int vocab_ab (-7) = true ∧
  Vocab.getitem_int vocab_ab (-7) = Raise IndexError.
Proof.
  split.
  - apply (proj1 (vocab_getitem_out_of_range vocab_ab 6)). left.
    unfold Vocab.len. simpl. lia.
  - apply (proj2 (vocab_getitem_out_of_range vocab_ab (-7))).
    unfold Vocab.len. simpl. lia.
Defined.

(** ** Batch: what [add] keeps and when it raises *)

Lemma update_max_frame ms : ∀ ls,
  length (Batch.update_max ms ls).1 = length ms ∧
  Forall2 Z.le ms (Batch.update_max ms ls).1 ∧
  ((Batch.update_max ms ls).2 = true ↔ (length ls ≤ length ms)%nat) ∧
  ((length ms ≤ length ls)%nat →
   (Batch.update_max ms ls).1 = zip_with Z.max ms ls).
Proof.
  induction ms as [|m ms IH]; intros [|l ls]; simpl.
  - repeat split; (done || constructor).
  - repeat split; try done; try constructor; intros; lia.
  - repeat split; try done; try lia.
  - destruct (IH ls) as (Hlen & Hle & Hok & Hzip).
    destruct (Batch.update_max ms ls) as [ms' ok]. simpl in *.
    split; [lia|]. split; [constructor; [lia|done]|]. split.
    + rewrite Hok. lia.
    + intros Hl. f_equal. apply Hzip. lia.
Qed.

Lemma fits_frame ms : ∀ ls k cap,
  match Batch.fits ms ls k cap with
  | Ok true => (length ls ≤ length ms)%nat
  | Ok false => True
  | Raise e => e = IndexError ∧ (length ms < length ls)%nat
  end.
Proof.
  induction ms as [|m ms IH]; intros [|l ls] k cap; simpl; try done; try lia.
  - split; [done|lia].
  - destruct (_ >? _); [done|]. specialize (IH ls k cap).
    destruct (Batch.fits ms ls k cap) as [[]|]; [lia|done|].
    destruct IH as [-> ?]. split; [done|lia].
Qed.

Lemma add_frame_ready (b : Batch.t) (pos : nat) (lens : list Z)
    (b' : Batch.t) (r : result bool) :
  Batch.add b pos lens = (b', r) →
  Batch.batch_size b' = Batch.batch_size b ∧
  Batch.batch_type b' = Batch.batch_type b ∧
  length (Batch.max_lens b') = length (Batch.max_lens b) ∧
  Forall2 Z.le (Batch.max_lens b) (Batch.max_lens b') ∧
  (Batch.Pos b' = Batch.Pos b ∨ Batch.Pos b' = Batch.Pos b ++ [pos]) ∧
  (r = Ok false → b' = b) ∧
  (r = Ok true → Batch.Pos b' = Batch.Pos b ++ [pos] ∧
                 (length lens ≤ length (Batch.max_lens b))%nat) ∧
  (∀ e, r = Raise e →
        e = IndexError ∧ (length (Batch.max_lens b) < length lens)%nat).
Proof.
  assert (Forall2 Z.le (Batch.max_lens b) (Batch.max_lens b)) as Hrefl.
  { apply Forall2_same_length_lookup_2; [done|]. intros i x y Hx Hy.
    assert (x = y) by congruence. lia. }
  unfold Batch.add.
  set (check := if (Batch.batch_type b =? "tokens")%string then _ else _).
  assert (match check with
          | Ok true => (Batch.batch_type b =? "tokens")%string = true →
                       (length lens ≤ length (Batch.max_lens b))%nat
          | Ok false => True
          | Raise e => e = IndexError ∧
                       (length (Batch.max_lens b) < length lens)%nat
          end) as Hcheck.
  { unfold check. destruct (Batch.batch_type b =? "tokens")%string.
    - pose proof (fits_frame (Batch.max_lens b) lens (Batch.len b + 1)
                    (Batch.batch_size b)) as Hf.
      destruct (Batch.fits _ _ _ _) as [[]|]; auto.
    - by destruct (_ =? _). }
  destruct check as [[]|e].
  - destruct (update_max_frame (Batch.max_lens b) lens) as (Hlen & Hle & Hok & _).
    destruct (Batch.update_max (Batch.max_lens b) lens) as [ms ok]. simpl in *.
    destruct ok.
    + assert (length lens ≤ length (Batch.max_lens b))%nat by by apply Hok.
      intros [= <- <-]. simpl. repeat split; try done; auto.
    + assert (length (Batch.max_lens b) < length lens)%nat.
      { destruct (decide (length lens ≤ length (Batch.max_lens b))%nat) as [Hl|];
          [|lia]. by apply Hok in Hl. }
      intros [= <- <-]. simpl.
      repeat split; try done; auto; congruence.
  - intros [= <- <-]. repeat split; try done; auto.
  - intros [= <- <-]. destruct Hcheck as [-> ?].
    repeat split; try done; auto; congruence.
Qed.

(** X7. On an object that was constructed and never reset, [add] raises
    [AttributeError] and changes nothing. On an accumulator that has been
    reset, whatever the arguments, [add] leaves the capacity and the policy
    alone, keeps one maximum per side and never lowers one; when it returns
    [False] the accumulator is as it was; when it returns [True] the
    position has been appended; and the only exception it raises is
    [IndexError], when it is given more lengths than there are sides. *)
Theorem add_frame (o : Batch.obj) (pos : nat) (lens : list Z)
    (o' : Batch.obj) (r : result bool) :
  Batch.add_to o pos lens = (o', r) →
  (∀ bs bt, o = Batch.Fresh bs bt → o' = o ∧ r = Raise AttributeError) ∧
  (∀ b, o = Batch.Ready b →
     ∃ b', o' = Batch.Ready b' ∧
       Batch.batch_size b' = Batch.batch_size b ∧
       Batch.batch_type b' = Batch.batch_type b ∧
       length (Batch.max_lens b') = length (Batch.max_lens b) ∧
       Forall2 Z.le (Batch.max_lens b) (Batch.max_lens b') ∧
       (Batch.Pos b' = Batch.Pos b ∨ Batch.Pos b' = Batch.Pos b ++ [pos]) ∧
       (r = Ok false → b' = b) ∧
       (r = Ok true → Batch.Pos b' = Batch.Pos b ++ [pos] ∧
                      (length lens ≤ length (Batch.max_lens b))%nat) ∧
       (∀ e, r = Raise e →
             e = IndexError ∧ (length (Batch.max_lens b) < length lens)%nat)).
Proof.
  intros Hadd. split.
  - intros bs bt ->. simpl in Hadd. by injection Hadd as <- <-.
  - intros b ->. simpl in Hadd.
    destruct (Batch.add b pos lens) as [b' r'] eqn:Hb.
    injection Hadd as <- <-. exists b'. split; [done|].
    by apply add_frame_ready.
Qed.

Lemma add_frame_witness :
  (Batch.Fresh 8 "tokens" = Batch.Fresh 8 "tokens" ∧
   Raise AttributeError = Raise (A:=bool) AttributeError) ∧
  ∃ b', Batch.Ready (Batch.mk 8 "tokens" [1; 0]%nat [4; 3]) = Batch.Ready b' ∧
    Batch.batch_size b' = 8 ∧ Batch.batch_type b' = "tokens" ∧
    length (Batch.max_lens b') = length [3; 3] ∧
    Forall2 Z.le [3; 3] (Batch.max_lens b') ∧
    (Batch.Pos b' = [1%nat] ∨ Batch.Pos b' = [1%nat] ++ [0%nat]) ∧
    (Ok true = Ok false → b' = Batch.mk 8 "tokens" [1%nat] [3; 3]) ∧
    (Ok true = Ok true → Batch.Pos b' = [1%nat] ++ [0%nat] ∧
                         (length [4; 2] ≤ length [3; 3])%nat) ∧
    (∀ e, Ok true = Raise e →
          e = IndexError ∧ (length [3; 3] < length [4; 2])%nat).
Proof.
  split.
  - by apply (proj1 (add_frame (Batch.Fresh 8 "tokens") 0 [4; 2]
                       (Batch.Fresh 8 "tokens") (Raise AttributeError) eq_refl)
                8 "tokens").
  - by apply (proj2 (add_frame (Batch.Ready (Batch.mk 8 "tokens" [1%nat] [3; 3]))
                       0 [4; 2]
                       (Batch.Ready (Batch.mk 8 "tokens" [1; 0]%nat [4; 3]))
                       (Ok true) eq_refl)
                (Batch.mk 8 "tokens" [1%nat] [3; 3])).
Defined.

(** X8. When [add] is given more lengths than there are sides it raises
    [IndexError]. Under the token policy (the sides that exist all being
    within capacity) the accumulator is untouched; under the sentence
    policy, when the accumulator is not full, the position has already
    been appended and the maxima of the existing sides updated. *)
Theorem add_too_many_lens (b : Batch.t) (pos : nat) (lens : list Z) :
  (length (Batch.max_lens b) < length lens)%nat →
  (Batch.batch_type b = "tokens" →
   Forall2 (λ m l, Z.max m l * (Batch.len b + 1) ≤ Batch.batch_size b)
           (Batch.max_lens b) (take (length (Batch.max_lens b)) lens) →
   Batch.add b pos lens = (b, Raise IndexError)) ∧
  (Batch.batch_type b ≠ "tokens" → Batch.len b ≠ Batch.batch_size b →
   Batch.add b pos lens = (accepted b pos lens, Raise IndexError)).
Proof.
  intros Hlong. split.
  - intros Hty Hfit. unfold Batch.add. rewrite Hty. simpl.
    assert (Batch.fits (Batch.max_lens b) lens (Batch.len b + 1)
                       (Batch.batch_size b) = Raise IndexError) as ->; [|done].
    revert Hlong Hfit. generalize (Batch.len b + 1) (Batch.batch_size b).
    generalize (Batch.max_lens b) as ms. intros ms. revert lens.
    induction ms as [|m ms IH]; intros [|l ls] k cap Hlong Hfit;
      simpl in *; try done; try lia.
    apply Forall2_cons in Hfit as [Hm Hfit].
    destruct (Z.gtb_spec (Z.max m l * k) cap); [lia|].
    apply IH; [lia|done].
  - intros Hty Hne. unfold Batch.add.
    rewrite (proj2 (String.eqb_neq _ _) Hty).
    destruct (Z.eqb_spec (Batch.len b) (Batch.batch_size b)); [done|].
    destruct (update_max_frame (Batch.max_lens b) lens) as (_ & _ & Hok & Hzip).
    destruct (Batch.update_max (Batch.max_lens b) lens) as [ms ok]. simpl in *.
    rewrite Hzip by lia. destruct ok; [|done].
    assert (length lens ≤ length (Batch.max_lens b))%nat by by apply Hok. lia.
Qed.

Lemma add_too_many_lens_witness :
  Batch.add (Batch.mk 9 "tokens" [] [0]) 5 [3; 4] =
    (Batch.mk 9 "tokens" [] [0], Raise IndexError) ∧
  Batch.add (Batch.mk 9 "sentences" [] [0]) 5 [3; 4] =
    (Batch.mk 9 "sentences" [5%nat] [3], Raise IndexError).
Proof.
  split.
  - apply (add_too_many_lens (Batch.mk 9 "tokens" [] [0]) 5 [3; 4]);
      [simpl; lia|done|]. repeat constructor. by vm_compute.
  - by apply (add_too_many_lens (Batch.mk 9 "sentences" [] [0]) 5 [3; 4]);
      [simpl; lia|..].
Defined.

(** ** Dataset: what the constructor accepts and stores *)

Section constructor.

Context (flatten_count : list (list Z) → list Z → Z * Z).

(** X9. [Dataset.__init__] succeeds exactly when there is a vocabulary for
    every file, [flatten_count] reports a token count other than 0 for
    every file (the log call divides by it), and every file has as many
    lines as the first. *)
Theorem dataset_init_exact (ftxts : list (list (list string)))
    (vocs : list Vocab.t) (shard_size batch_size : Z) (batch_type : string)
    (max_length : Z) :
  is_ok (Dataset.init flatten_count ftxts vocs shard_size batch_size
                      batch_type max_length) ↔
  ∀ n ftxt, ftxts !! n = Some ftxt →
    ∃ voc, vocs !! n = Some voc ∧
           (flatten_count (encode voc ftxt) [Vocab.idx_unk voc]).1 ≠ 0 ∧
           length ftxt = length (default [] (head ftxts)).
Proof.
  rewrite <- (load_ok_iff flatten_count vocs ftxts 0 [] [] []).
  unfold Dataset.init.
  destruct (Dataset.load _ _ _ _ _ _ _) as [[[bos eos] F]|]; simpl.
  - split; intros _; by eexists.
  - split; by intros [? ?].
Qed.

(** X10. A constructed engine keeps the options it was given, has one side
    per file and is parallel; each of its lines is the file's line mapped
    token by token through the side's vocabulary, so a line has as many
    ids as it has tokens; and the marker ids recorded for a side are those
    of its vocabulary. *)
Theorem dataset_init_content (ftxts : list (list (list string)))
    (vocs : list Vocab.t) (shard_size batch_size : Z) (batch_type : string)
    (max_length : Z) (ds : Dataset.t) :
  Dataset.init flatten_count ftxts vocs shard_size batch_size batch_type
               max_length = Ok ds →
  (Dataset.shard_size ds = shard_size ∧ Dataset.batch_size ds = batch_size ∧
   Dataset.batch_type ds = batch_type ∧ Dataset.max_length ds = max_length) ∧
  n_files ds = length ftxts ∧
  well_formed ds (length (default [] (head ftxts))) ∧
  ∀ n ftxt pos toks, ftxts !! n = Some ftxt → ftxt !! pos = Some toks →
    ∃ voc, vocs !! n = Some voc ∧
           line_at ds n pos = Vocab.getitem_str voc <$> toks ∧
           len_at ds n pos = Z.of_nat (length toks) ∧
           Dataset.idx_bos ds !! n = Some (Vocab.idx_bos voc) ∧
           Dataset.idx_eos ds !! n = Some (Vocab.idx_eos voc).
Proof.
  intros Hinit.
  assert (n_files ds = length ftxts) as Hn.
  { revert Hinit. unfold Dataset.init, n_files.
    destruct (Dataset.load _ _ _ _ _ _ _) as [[[b e] F]|] eqn:Hload; [|done].
    cbn [mbind result_bind]. intros [=<-]. simpl.
    by apply load_length in Hload. }
  pose proof (init_spec flatten_count _ _ _ _ _ _ _ Hinit) as [Hwf Hcontent].
  split.
  { revert Hinit. unfold Dataset.init.
    destruct (Dataset.load _ _ _ _ _ _ _) as [[[b e] F]|]; [|done].
    cbn [mbind result_bind]. by intros [=<-]. }
  split; [done|]. split.
  - replace (length (default [] (head ftxts)))
      with (length (default [] (head (Dataset.File_Line_Idx ds)))); [done|].
    destruct ftxts as [|ftxt0 rest].
    + unfold n_files in Hn. by destruct (Dataset.File_Line_Idx ds).
    + destruct (Hcontent 0%nat ftxt0 eq_refl) as (voc & _ & HF & _).
      destruct (Dataset.File_Line_Idx ds) as [|side0 sides]; [done|].
      simpl in *. injection HF as ->. unfold encode. by rewrite length_fmap.
  - intros n ftxt pos toks Hftxt Htoks.
    destruct (Hcontent n ftxt Hftxt) as (voc & Hvoc & HF & Hb & He).
    exists voc. split; [done|].
    assert (line_at ds n pos = Vocab.getitem_str voc <$> toks) as Hline.
    { unfold line_at. rewrite HF. simpl. unfold encode.
      by rewrite list_lookup_fmap, Htoks. }
    split; [done|]. split; [|done].
    unfold len_at. by rewrite Hline, length_fmap.
Qed.

(** X11. Every id a constructed engine stores is a position of the table
    of its side's vocabulary, when the vocabularies were built by
    [Vocab.__init__]. *)
Theorem dataset_ids_in_range (ftxts : list (list (list string)))
    (vocs : list Vocab.t) (shard_size batch_size : Z) (batch_type : string)
    (max_length : Z) (ds : Dataset.t) (n : nat) (side : list (list Z))
    (l : list Z) (id : Z) :
  Forall (λ voc, ∃ lines, Vocab.init lines = Ok voc) vocs →
  Dataset.init flatten_count ftxts vocs shard_size batch_size batch_type
               max_length = Ok ds →
  Dataset.File_Line_Idx ds !! n = Some side → l ∈ side → id ∈ l →
  ∃ voc, vocs !! n = Some voc ∧ 0 ≤ id < Vocab.len voc.
Proof.
  intros Hvocs Hinit Hside Hl Hid.
  assert (n_files ds = length ftxts) as Hn.
  { revert Hinit. unfold Dataset.init, n_files.
    destruct (Dataset.load _ _ _ _ _ _ _) as [[[b e] F]|] eqn:Hload; [|done].
    cbn [mbind result_bind]. intros [=<-]. simpl.
    by apply load_length in Hload. }
  destruct (lookup_lt_is_Some_2 ftxts n) as [ftxt Hftxt].
  { rewrite <- Hn. by eapply lookup_lt_Some. }
  apply init_spec in Hinit as [_ Hcontent].
  destruct (Hcontent n ftxt Hftxt) as (voc & Hvoc & HF & _).
  rewrite Hside in HF. injection HF as ->.
  exists voc. split; [done|]. unfold encode in Hl.
  apply list_elem_of_fmap in Hl as (toks & -> & _).
  apply list_elem_of_fmap in Hid as (tok & -> & _).
  rewrite Forall_forall in Hvocs.
  destruct (Hvocs voc) as [lines Hlines]; [by eapply list_elem_of_lookup_2|].
  pose proof (init_fields _ _ Hlines) as (Hi2t & _).
  destruct (getitem_str_position lines voc tok Hlines) as (j & x & -> & Hj).
  apply lookup_lt_Some in Hj. unfold Vocab.len. rewrite Hi2t. lia.
Qed.

End constructor.

Lemma dataset_init_content_witness :
  (Dataset.shard_size (ds_scenario "tokens" 8) = 0 ∧
   Dataset.batch_size (ds_scenario "tokens" 8) = 8 ∧
   Dataset.batch_type (ds_scenario "tokens" 8) = "tokens" ∧
   Dataset.max_length (ds_scenario "tokens" 8) = 0) ∧
  n_files (ds_scenario "tokens" 8) = length corpus_ab ∧
  well_formed (ds_scenario "tokens" 8) (length (default [] (head corpus_ab))) ∧
  ∀ n ftxt pos toks, corpus_ab !! n = Some ftxt → ftxt !! pos = Some toks →
    ∃ voc, [vocab_ab; vocab_xy] !! n = Some voc ∧
           line_at (ds_scenario "tokens" 8) n pos = Vocab.getitem_str voc <$> toks ∧
           len_at (ds_scenario "tokens" 8) n pos = Z.of_nat (length toks) ∧
           Dataset.idx_bos (ds_scenario "tokens" 8) !! n = Some (Vocab.idx_bos voc) ∧
           Dataset.idx_eos (ds_scenario "tokens" 8) !! n = Some (Vocab.idx_eos voc).
Proof.
  apply (dataset_init_content flatten_count corpus_ab [vocab_ab; vocab_xy]
           0 8 "tokens" 0 (ds_scenario "tokens" 8)).
  reflexivity.
Defined.

Lemma dataset_ids_in_range_witness :
  ∃ voc, [vocab_ab; vocab_xy] !! 1%nat = Some voc ∧ 0 ≤ 5 < Vocab.len voc.
Proof.
  apply (dataset_ids_in_range flatten_count corpus_ab [vocab_ab; vocab_xy]
           0 8 "tokens" 0 (ds_scenario "tokens" 8) 1 [[4; 5]; [5]] [4; 5] 5).
  - apply Forall_cons. split; [eexists; apply vocab_ab_init|].
    apply Forall_cons. split; [eexists; apply vocab_xy_init|]. constructor.
  - reflexivity.
  - reflexivity.
  - apply (bool_decide_unpack _). by vm_compute.
  - apply (bool_decide_unpack _). by vm_compute.
Defined.

(** ** Dataset: the order inside a batch and the shard it comes from *)

Lemma StronglySorted_filter_fmap {A} (key : A → Z) (P : A → Prop)
    `{!∀ x, Decision (P x)} (l : list A) :
  StronglySorted Z.le (key <$> l) → StronglySorted Z.le (key <$> filter P l).
Proof.
  induction l as [|x l IH]; [done|]. rewrite fmap_cons.
  intros [Hs Hall]%StronglySorted_inv.
  rewrite Forall_fmap, Forall_forall in Hall.
  destruct (decide (P x)) as [HP|HP].
  - rewrite filter_cons_True by done. rewrite fmap_cons.
    constructor; [by apply IH|].
    rewrite Forall_fmap. apply Forall_forall.
    intros y [_ Hy]%list_elem_of_filter. by apply Hall.
  - rewrite filter_cons_False by done. by apply IH.
Qed.

Lemma StronglySorted_concat_part {A} (key : A → Z) (ls : list (list A)) (P : list A) :
  StronglySorted Z.le (key <$> concat ls) → P ∈ ls →
  StronglySorted Z.le (key <$> P).
Proof.
  intros Hs (l1 & l2 & ->)%list_elem_of_split.
  rewrite concat_app in Hs. simpl in Hs. rewrite !fmap_app in Hs.
  by apply StronglySorted_app_1_r, StronglySorted_app_1_l in Hs.
Qed.

Lemma elem_of_concat_part {A} (ls : list (list A)) (P : list A) x :
  P ∈ ls → x ∈ P → x ∈ concat ls.
Proof.
  intros HP Hx. apply list_elem_of_In, in_concat. exists P.
  split; by apply list_elem_of_In.
Qed.

Lemma sort_shard_ascending ds argsort (shard_pos : list nat) :
  is_argsort argsort →
  ∃ sorted,
    Dataset.sort_shard argsort shard_pos (len_at ds 0 <$> shard_pos) = Ok sorted ∧
    sorted ≡ₚ shard_pos ∧ Sorted Z.le (len_at ds 0 <$> sorted).
Proof.
  intros Hargsort.
  destruct (sort_shard_Ok argsort shard_pos (len_at ds 0 <$> shard_pos))
    as (sorted & Hsort & Hsorted & Hperm).
  { apply Hargsort. }
  { by rewrite length_fmap. }
  exists sorted. split; [done|]. split; [done|].
  destruct (Hargsort (len_at ds 0 <$> shard_pos)) as [Hidx Hkeys].
  replace (len_at ds 0 <$> sorted)
    with (keys_of (len_at ds 0 <$> shard_pos) (argsort (len_at ds 0 <$> shard_pos)));
    [done|].
  rewrite Hsorted, <- list_fmap_compose. unfold keys_of.
  apply list_fmap_ext. intros _ i Hi%list_elem_of_lookup_2.
  rewrite Hidx in Hi. apply elem_of_seq in Hi. rewrite length_fmap in Hi.
  destruct (lookup_lt_is_Some_2 shard_pos i) as [p Hp]; [lia|].
  simpl. by rewrite list_lookup_fmap, Hp.
Qed.

Section runs.

Context (ds : Dataset.t) (n_lines : nat) (Hwf : well_formed ds n_lines).
Context (Hvalid : valid_policy ds) (Hfiles : (0 < n_files ds)%nat).
Context (shuffle : nat → list nat → list nat) (Hshuffle : is_shuffle shuffle).
Context (argsort : list Z → list nat) (Hargsort : is_argsort argsort).

Lemma do_shard_runs s shard :
  Forall (λ pos, (pos < n_lines)%nat) shard →
  ∃ yb, Dataset.do_shard shuffle argsort ds (n_files ds) s shard =
          (item_of ds <$> yb, None) ∧
        Forall (λ P, Sorted Z.le (len_at ds 0 <$> P) ∧ P ⊆ shard) yb.
Proof.
  intros Hshard. unfold Dataset.do_shard.
  rewrite (build_shard_Ok ds n_lines Hwf) by done.
  rewrite !app_nil_l. cbn [mbind result_bind].
  destruct (sort_shard_ascending ds argsort
              (filter (λ pos, keep ds pos) shard) Hargsort)
    as (sorted & -> & Hperm & Hasc).
  cbn [mbind result_bind].
  assert (∀ pos, pos ∈ sorted → pos ∈ shard) as Hsub.
  { intros pos Hin. rewrite Hperm in Hin.
    by apply list_elem_of_filter in Hin as [_ ?]. }
  assert (Forall (λ pos, (pos < n_lines)%nat) sorted) as Hsorted.
  { apply Forall_forall. intros pos Hin. rewrite Forall_forall in Hshard. auto. }
  destruct (build_batchs_spec ds n_lines Hwf sorted Hvalid Hsorted)
    as (batchs & -> & _ & Hconcat).
  assert (∀ P pos, P ∈ batchs → pos ∈ P → pos ∈ sorted) as Hin_sorted.
  { intros P pos HP Hpos. pose proof (elem_of_concat_part _ _ _ HP Hpos) as Hin.
    rewrite Hconcat in Hin. by apply list_elem_of_filter in Hin as [_ ?]. }
  rewrite (yield_batchs_spec ds n_lines Hwf).
  - eexists. split; [reflexivity|].
    assert ((λ i, default [] (batchs !! i)) <$>
              shuffle (S s) (seq 0 (length batchs)) ≡ₚ batchs) as Hyb.
    { rewrite (Hshuffle (S s)). by rewrite fmap_lookup_seq. }
    rewrite Hyb. apply Forall_forall. intros P HP. split.
    + apply StronglySorted_Sorted.
      apply (StronglySorted_concat_part _ batchs); [|done].
      rewrite Hconcat. apply StronglySorted_filter_fmap.
      by apply Sorted_StronglySorted; [apply _|].
    + intros pos Hpos. eauto.
  - apply Forall_forall. intros P HP. apply Forall_forall. intros pos Hpos.
    rewrite Forall_forall in Hsorted. eauto.
  - apply Forall_forall. intros i Hi. rewrite (Hshuffle (S s)) in Hi.
    apply elem_of_seq in Hi. lia.
Qed.

Lemma run_shards_runs shards : ∀ s,
  Forall (Forall (λ pos, (pos < n_lines)%nat)) shards →
  ∃ yb, Dataset.run_shards shuffle argsort ds (n_files ds) s shards =
          (item_of ds <$> yb, None) ∧
        Forall (λ P, Sorted Z.le (len_at ds 0 <$> P) ∧
                     ∃ shard, shard ∈ shards ∧ P ⊆ shard) yb.
Proof.
  induction shards as [|shard rest IH]; intros s Hshards.
  - exists []. by split.
  - apply Forall_cons in Hshards as [Hshard Hrest].
    cbn [Dataset.run_shards].
    destruct (do_shard_runs s shard Hshard) as (yb1 & -> & H1).
    destruct (IH (S s) Hrest) as (yb2 & -> & H2).
    exists (yb1 ++ yb2). split; [by rewrite fmap_app|].
    apply Forall_app. split.
    + eapply Forall_impl; [done|]. intros P [? ?]. split; [done|].
      exists shard. split; [by left|done].
    + eapply Forall_impl; [done|]. intros P [? (sh & ? & ?)]. split; [done|].
      exists sh. split; [by right|done].
Qed.

End runs.

(** X12. Inside every yielded batch the examples stand in an order in
    which the side-0 raw length does not decrease: a batch is a run of
    consecutive examples of its sorted shard. *)
Theorem batch_ascending
    (ds : Dataset.t) (n_lines : nat)
    (shuffle : nat → list nat → list nat) (argsort : list Z → list nat)
    (batch : list nat) (all : list (list (list Z))) :
  well_formed ds n_lines → valid_policy ds →
  is_shuffle shuffle → is_argsort argsort →
  (batch, all) ∈ (Dataset.iter shuffle argsort ds).1 →
  Sorted Z.le (len_at ds 0 <$> batch).
Proof.
  intros Hwf Hvalid Hshuffle Hargsort. unfold Dataset.iter.
  pose proof (wf_parallel _ _ Hwf) as Hpar.
  destruct (Dataset.File_Line_Idx ds) as [|side0 sides] eqn:HF;
    [by intros ?%elem_of_nil|].
  apply Forall_cons in Hpar as [Hside0 _]. rewrite Hside0.
  destruct (Dataset.split_shards _ _ _) as [shards|] eqn:Hsplit;
    [|by intros ?%elem_of_nil].
  assert (0 < n_files ds)%nat as Hfiles by (unfold n_files; rewrite HF; simpl; lia).
  replace (length (side0 :: sides)) with (n_files ds)
    by (unfold n_files; by rewrite HF).
  destruct (run_shards_runs ds n_lines Hwf Hvalid Hfiles shuffle Hshuffle
              argsort Hargsort shards 0%nat) as (yb & -> & Hyb).
  - apply Forall_forall. intros shard Hshard. apply Forall_forall.
    intros pos Hpos. revert Hsplit. unfold Dataset.split_shards.
    destruct (py_range_step _ _) as [starts|]; [|done]. intros [=<-].
    apply list_elem_of_fmap in Hshard as (i & -> & _).
    apply elem_of_take in Hpos as (j & Hj & _). rewrite lookup_drop in Hj.
    apply list_elem_of_lookup_2 in Hj. rewrite (Hshuffle 0%nat) in Hj.
    apply elem_of_seq in Hj. lia.
  - simpl. intros (P & [= -> _] & HP)%list_elem_of_fmap.
    rewrite Forall_forall in Hyb. by apply Hyb.
Qed.

Lemma batch_ascending_witness :
  Sorted Z.le (len_at (ds_scenario "tokens" 8) 0 <$> [1; 0]%nat).
Proof.
  apply (batch_ascending (ds_scenario "tokens" 8) 2 shuffle_rev argsort_stable
           [1; 0]%nat [[[2; 5; 3]; [2; 4; 5; 3]]; [[2; 5; 3]; [2; 4; 5; 3]]]).
  - apply ds_scenario_wf.
  - by right.
  - apply shuffle_rev_is_shuffle.
  - apply argsort_stable_is_argsort.
  - vm_compute. left.
Defined.

(** X13. No batch mixes shards: the examples of a yielded batch all come
    from one of the shards into which the shuffled positions were cut. *)
Theorem batch_in_one_shard
    (ds : Dataset.t) (n_lines : nat)
    (shuffle : nat → list nat → list nat) (argsort : list Z → list nat)
    (side0 : list (list Z)) (sides : list (list (list Z)))
    (shards : list (list nat)) (batch : list nat) (all : list (list (list Z))) :
  well_formed ds n_lines → valid_policy ds →
  is_shuffle shuffle → is_argsort argsort →
  Dataset.File_Line_Idx ds = side0 :: sides →
  Dataset.split_shards (shuffle 0%nat (seq 0 (length side0))) (length side0)
    (Dataset.shard_size_of ds (length side0)) = Ok shards →
  (batch, all) ∈ (Dataset.iter shuffle argsort ds).1 →
  ∃ shard, shard ∈ shards ∧ batch ⊆ shard.
Proof.
  intros Hwf Hvalid Hshuffle Hargsort HF Hsplit. unfold Dataset.iter.
  rewrite HF, Hsplit.
  pose proof (wf_parallel _ _ Hwf) as Hpar. rewrite HF in Hpar.
  apply Forall_cons in Hpar as [Hside0 _].
  assert (0 < n_files ds)%nat as Hfiles by (unfold n_files; rewrite HF; simpl; lia).
  replace (length (side0 :: sides)) with (n_files ds)
    by (unfold n_files; by rewrite HF).
  destruct (run_shards_runs ds n_lines Hwf Hvalid Hfiles shuffle Hshuffle
              argsort Hargsort shards 0%nat) as (yb & -> & Hyb).
  - apply Forall_forall. intros shard Hshard. apply Forall_forall.
    intros pos Hpos. revert Hsplit. unfold Dataset.split_shards.
    destruct (py_range_step _ _) as [starts|]; [|done]. intros [=<-].
    apply list_elem_of_fmap in Hshard as (i & -> & _).
    apply elem_of_take in Hpos as (j & Hj & _). rewrite lookup_drop in Hj.
    apply list_elem_of_lookup_2 in Hj. rewrite (Hshuffle 0%nat) in Hj.
    apply elem_of_seq in Hj. lia.
  - simpl. intros (P & [= -> _] & HP)%list_elem_of_fmap.
    rewrite Forall_forall in Hyb. by apply Hyb.
Qed.

Lemma batch_in_one_shard_witness :
  ∃ shard, shard ∈ [[1; 0]%nat] ∧ [1; 0]%nat ⊆ shard.
Proof.
  apply (batch_in_one_shard (ds_scenario "tokens" 8) 2 shuffle_rev
           argsort_stable [[4; 5]; [5]] [[[4; 5]; [5]]] [[1; 0]%nat] [1; 0]%nat
           [[[2; 5; 3]; [2; 4; 5; 3]]; [[2; 5; 3]; [2; 4; 5; 3]]]).
  - apply ds_scenario_wf.
  - by right.
  - apply shuffle_rev_is_shuffle.
  - apply argsort_stable_is_argsort.
  - reflexivity.
  - reflexivity.
  - vm_compute. left.
Defined.

(** ** Dataset: full batches under the sentence policy *)

Section sentences.

Context (ds : Dataset.t) (n_lines : nat) (Hwf : well_formed ds n_lines).
Context (Hsent : Dataset.batch_type ds ≠ "tokens").

Lemma pack_flushed_full poss : ∀ b batchs b' batchs',
  Forall (λ pos, (pos < n_lines)%nat) poss → acc_inv ds b →
  Forall (λ P, Z.of_nat (length P) = Dataset.batch_size ds) batchs →
  Dataset.pack ds (n_files ds) b batchs poss = Ok (b', batchs') →
  Forall (λ P, Z.of_nat (length P) = Dataset.batch_size ds) batchs'.
Proof.
  induction poss as [|pos rest IH]; intros b batchs b' batchs' Hposs Hinv Hfull.
  - simpl. by intros [= _ <-].
  - apply Forall_cons in Hposs as [Hpos Hrest].
    cbn [Dataset.pack]. rewrite (padded_lens_Ok ds n_lines Hwf) by done.
    cbn [mbind result_bind].
    destruct (add_cases ds b pos Hinv) as [(Hadd & Hinv' & _)|(Hadd & _)];
      rewrite Hadd.
    + by apply IH.
    + assert (Batch.len b = Dataset.batch_size ds) as Hlen.
      { pose proof (add_sentences b pos (lens_of ds pos)) as Hs.
        rewrite Hadd in Hs. destruct Hinv as [Hsz Hty Hmax _ _].
        rewrite <- Hsz. case_bool_decide; [done|].
        exfalso. assert ((b, Ok false) = (accepted b pos (lens_of ds pos), Ok true));
          [|done].
        apply Hs; [congruence|]. unfold lens_of. by rewrite Hmax, !length_fmap. }
      rewrite len_zero. case_bool_decide as HP.
      * rewrite Hadd. by apply IH.
      * assert (acc_inv ds (Batch.reset b (n_files ds))) as Hinv0.
        { destruct Hinv. by apply acc_inv_reset. }
        assert (Forall (λ P, Z.of_nat (length P) = Dataset.batch_size ds)
                       (batchs ++ [Batch.Pos b])) as Hfull'.
        { apply Forall_app. split; [done|]. by apply Forall_singleton. }
        destruct (add_cases ds (Batch.reset b (n_files ds)) pos Hinv0)
          as [(Hadd0 & Hinv' & _)|(Hadd0 & _)]; rewrite Hadd0; by apply IH.
Qed.

End sentences.

Lemma filter_all {A} (P : A → Prop) `{!∀ x, Decision (P x)} (l : list A) :
  Forall P l → filter P l = l.
Proof.
  induction 1 as [|x l Hx _ IH]; [done|].
  rewrite filter_cons_True by done. by f_equal.
Qed.

(** X14. Under the sentence policy with a capacity [C > 0], the batches
    built from a sorted shard are the shard cut, in order, into batches of
    exactly [C] examples, followed by at most one more batch, not empty and
    of at most [C] examples: no example is left out and only the last
    batch of a shard can be short. *)
Theorem sentence_batches_full
    (ds : Dataset.t) (n_lines : nat) (sorted : list nat) :
  well_formed ds n_lines → Dataset.batch_type ds = "sentences" →
  0 < Dataset.batch_size ds →
  Forall (λ pos, (pos < n_lines)%nat) sorted →
  ∃ full last,
    Dataset.build_batchs ds (n_files ds) sorted = Ok (full ++ last) ∧
    concat (full ++ last) = sorted ∧
    Forall (λ P, Z.of_nat (length P) = Dataset.batch_size ds) full ∧
    (last = [] ∨
     ∃ P, last = [P] ∧ P ≠ [] ∧ Z.of_nat (length P) ≤ Dataset.batch_size ds).
Proof.
  intros Hwf Hty Hcap Hsorted.
  assert (Dataset.batch_type ds ≠ "tokens") as Hsent by (by rewrite Hty).
  assert (filter (λ pos, fits_alone ds pos) sorted = sorted) as Hfit.
  { apply filter_all, Forall_forall. intros pos _. apply fits_alone_spec.
    rewrite Hty. simpl. lia. }
  unfold Dataset.build_batchs, Batch.init. rewrite Hty. simpl orb.
  cbn [mbind result_bind]. rewrite <- Hty.
  change (Batch.reset_of (Batch.Fresh ?bs ?bt) ?n)
    with (Batch.reset (Batch.mk bs bt [] []) n).
  set (b0 := Batch.reset _ _).
  assert (acc_inv ds b0) as Hinv0 by (by apply acc_inv_reset).
  destruct (pack_spec ds n_lines Hwf sorted b0 [] Hsorted Hinv0)
    as (b' & batchs' & Hpack & Hinv & _ & Heq); [constructor|].
  pose proof (pack_flushed_full ds n_lines Hwf Hsent sorted b0 [] b' batchs'
                Hsorted Hinv0 ltac:(constructor) Hpack) as Hfull.
  rewrite Hpack. cbn [mbind result_bind]. rewrite len_zero.
  simpl in Heq. rewrite Hfit in Heq.
  case_bool_decide as HP.
  - exists batchs', []. rewrite app_nil_r. rewrite HP, app_nil_r in Heq.
    repeat split; auto.
  - exists batchs', [Batch.Pos b']. split; [done|]. split.
    + rewrite concat_app. simpl. by rewrite app_nil_r.
    + split; [done|]. right. exists (Batch.Pos b'). split; [done|].
      split; [done|]. pose proof (acc_bound _ _ Hinv HP) as Hb.
      unfold within_capacity in Hb. rewrite Hty in Hb. simpl in Hb.
      apply Hb. lia.
Qed.

Lemma sentence_batches_full_witness :
  ∃ full last,
    Dataset.build_batchs (ds_scenario "sentences" 1) 2 [1; 0]%nat =
      Ok (full ++ last) ∧
    concat (full ++ last) = [1; 0]%nat ∧
    Forall (λ P, Z.of_nat (length P) = 1) full ∧
    (last = [] ∨ ∃ P, last = [P] ∧ P ≠ [] ∧ Z.of_nat (length P) ≤ 1).
Proof.
  apply (sentence_batches_full (ds_scenario "sentences" 1) 2 [1; 0]%nat).
  - apply ds_scenario_wf.
  - reflexivity.
  - simpl. lia.
  - repeat constructor.
Defined.

(** ** Dataset: passes that yield nothing *)

(** X15. The constructor of the engine does not look at the capacity
    policy: on a non-empty corpus with a shard size that is not negative, a
    policy other than the two known ones stops the first pass, before
    anything is yielded, with the accumulator's [Bad -batch_type option]
    assertion. *)
Theorem iter_bad_policy
    (ds : Dataset.t) (n_lines : nat)
    (shuffle : nat → list nat → list nat) (argsort : list Z → list nat) :
  well_formed ds n_lines → (0 < n_files ds)%nat → (0 < n_lines)%nat →
  0 ≤ Dataset.shard_size ds → is_shuffle shuffle → is_argsort argsort →
  ¬ valid_policy ds →
  Dataset.iter shuffle argsort ds =
    ([], Some (AssertionError "Bad -batch_type option")).
Proof.
  intros Hwf Hfiles Hlines Hsize Hshuffle Hargsort Hbad. unfold Dataset.iter.
  pose proof (wf_parallel _ _ Hwf) as Hpar. pose proof Hfiles as Hf.
  unfold n_files in Hf.
  destruct (Dataset.File_Line_Idx ds) as [|side0 sides] eqn:HF;
    [simpl in Hf; lia|].
  apply Forall_cons in Hpar as [-> _].
  replace (length (side0 :: sides)) with (n_files ds)
    by (unfold n_files; by rewrite HF).
  destruct (split_shards_pos (shuffle 0%nat (seq 0 n_lines)) n_lines
              (Dataset.shard_size_of ds n_lines))
    as (shards & -> & Hconcat).
  { unfold Dataset.shard_size_of.
    destruct (Z.eqb_spec (Dataset.shard_size ds) 0); lia. }
  { by rewrite (Hshuffle 0%nat), length_seq. }
  destruct shards as [|shard rest].
  { apply (f_equal length) in Hconcat.
    rewrite (Hshuffle 0%nat), length_seq in Hconcat. simpl in Hconcat. lia. }
  assert (Forall (λ pos, (pos < n_lines)%nat) shard) as Hshard.
  { apply Forall_forall. intros pos Hpos.
    assert (pos ∈ concat (shard :: rest)) as Hin
      by (simpl; apply elem_of_app; by left).
    rewrite Hconcat, (Hshuffle 0%nat) in Hin. apply elem_of_seq in Hin. lia. }
  cbn [Dataset.run_shards]. unfold Dataset.do_shard.
  rewrite (build_shard_Ok ds n_lines Hwf) by done.
  rewrite !app_nil_l. cbn [mbind result_bind].
  destruct (sort_shard_ascending ds argsort
              (filter (λ pos, keep ds pos) shard) Hargsort)
    as (sorted & -> & _ & _).
  cbn [mbind result_bind]. unfold Dataset.build_batchs, Batch.init.
  assert ((Dataset.batch_type ds =? "sentences")%string ||
          (Dataset.batch_type ds =? "tokens")%string = false) as ->; [|done].
  apply orb_false_iff. unfold valid_policy in Hbad.
  rewrite !String.eqb_neq. tauto.
Qed.

Lemma iter_bad_policy_witness :
  Dataset.iter shuffle_id argsort_stable (ds_scenario "words" 8) =
    ([], Some (AssertionError "Bad -batch_type option")).
Proof.
  apply (iter_bad_policy (ds_scenario "words" 8) 2 shuffle_id argsort_stable).
  - apply ds_scenario_wf.
  - vm_compute. lia.
  - lia.
  - simpl. lia.
  - apply shuffle_id_is_shuffle.
  - apply argsort_stable_is_argsort.
  - by intros [?|?].
Defined.

(** X16. A capacity that no example can meet empties the pass without any
    error: on a non-empty corpus with a shard size that is not negative,
    under the token policy with a capacity below 2 (every example counts
    at least its two markers), and under the sentence policy with capacity
    0, the pass ends normally and nothing is yielded. *)
Theorem iter_nothing_fits
    (ds : Dataset.t) (n_lines : nat)
    (shuffle : nat → list nat → list nat) (argsort : list Z → list nat) :
  well_formed ds n_lines → (0 < n_files ds)%nat → (0 < n_lines)%nat →
  0 ≤ Dataset.shard_size ds → is_shuffle shuffle → is_argsort argsort →
  (Dataset.batch_type ds = "tokens" ∧ Dataset.batch_size ds < 2) ∨
  (Dataset.batch_type ds = "sentences" ∧ Dataset.batch_size ds = 0) →
  Dataset.iter shuffle argsort ds = ([], None).
Proof.
  intros Hwf Hfiles Hlines Hsize Hshuffle Hargsort Hcap.
  assert (valid_policy ds) as Hvalid.
  { destruct Hcap as [[? _]|[? _]]; [by right|by left]. }
  assert (∀ pos, ¬ fits_alone ds pos) as Hnofit.
  { intros pos. rewrite fits_alone_spec.
    destruct Hcap as [[-> Hlt]|[-> ->]]; simpl.
    - intros Hall. specialize (Hall 0%nat Hfiles).
      pose proof (len_at_nonneg ds 0 pos). lia.
    - by intros Hne. }
  destruct (iter_cases ds n_lines Hwf Hvalid Hfiles shuffle Hshuffle
              argsort Hargsort)
    as [[Hz _]|[[Hneg _]|[_ (yb & -> & Hsaved & _)]]].
  - unfold Dataset.shard_size_of in Hz.
    destruct (Z.eqb_spec (Dataset.shard_size ds) 0); lia.
  - unfold Dataset.shard_size_of in Hneg.
    destruct (Z.eqb_spec (Dataset.shard_size ds) 0); lia.
  - destruct yb as [|P yb]; [done|].
    apply Forall_cons in Hsaved as [(Hne & _ & Halone) _].
    destruct P as [|pos P]; [done|].
    apply Forall_cons in Halone as [Hfit _]. by destruct (Hnofit pos).
Qed.

Lemma iter_nothing_fits_witness :
  Dataset.iter shuffle_id argsort_stable (ds_scenario "tokens" 1) = ([], None) ∧
  Dataset.iter shuffle_id argsort_stable (ds_scenario "sentences" 0) = ([], None).
Proof.
  split.
  - apply (iter_nothing_fits (ds_scenario "tokens" 1) 2 shuffle_id argsort_stable).
    + apply ds_scenario_wf.
    + vm_compute. lia.
    + lia.
    + simpl. lia.
    + apply shuffle_id_is_shuffle.
    + apply argsort_stable_is_argsort.
    + left. split; [done|]. simpl. lia.
  - apply (iter_nothing_fits (ds_scenario "sentences" 0) 2 shuffle_id
             argsort_stable).
    + apply ds_scenario_wf.
    + vm_compute. lia.
    + lia.
    + simpl. lia.
    + apply shuffle_id_is_shuffle.
    + apply argsort_stable_is_argsort.
    + by right.
Defined.

(** X17. The shard size decides whether a pass has anything to work on:
    with a negative [shard_size] the pass yields nothing and raises
    nothing, whatever the corpus holds; with [shard_size] 0 and a first
    side without lines it stops at [range] with [ValueError]. *)
Theorem iter_shard_size_edge
    (shuffle : nat → list nat → list nat) (argsort : list Z → list nat)
    (ds : Dataset.t) (side0 : list (list Z)) (sides : list (list (list Z))) :
  Dataset.File_Line_Idx ds = side0 :: sides →
  (Dataset.shard_size ds < 0 → Dataset.iter shuffle argsort ds = ([], None)) ∧
  (Dataset.shard_size ds = 0 → side0 = [] →
   Dataset.iter shuffle argsort ds = ([], Some ValueError)).
Proof.
  intros HF. unfold Dataset.iter, Dataset.shard_size_of, Dataset.split_shards,
    py_range_step. rewrite HF. split.
  - intros Hneg.
    destruct (Z.eqb_spec (Dataset.shard_size ds) 0) as [|_]; [lia|].
    destruct (Z.eqb_spec (Dataset.shard_size ds) 0) as [|_]; [lia|].
    by destruct (Z.ltb_spec (Dataset.shard_size ds) 0) as [_|]; [|lia].
  - intros -> ->. done.
Qed.

Lemma iter_shard_size_edge_witness :
  Dataset.iter shuffle_id argsort_stable
               (Dataset.mk (-1) 8 "tokens" 0 [2] [3] [[[4; 5]; [5]]]) = ([], None) ∧
  Dataset.iter shuffle_id argsort_stable
               (Dataset.mk 0 8 "tokens" 0 [2] [3] [[]]) = ([], Some ValueError).
Proof.
  split.
  - apply (proj1 (iter_shard_size_edge shuffle_id argsort_stable
             (Dataset.mk (-1) 8 "tokens" 0 [2] [3] [[[4; 5]; [5]]])
             [[4; 5]; [5]] [] eq_refl)). simpl. lia.
  - by apply (proj2 (iter_shard_size_edge shuffle_id argsort_stable
             (Dataset.mk 0 8 "tokens" 0 [2] [3] [[]]) [] [] eq_refl)).
Defined.

(** ** Dataset: cutting the positions into shards *)

Lemma div_up_bounds n k :
  (0 < k)%nat → (n ≤ (n + k - 1) / k * k ∧ (n + k - 1) / k * k < n + k)%nat.
Proof.
  intros Hk. pose proof (Nat.div_mod_eq (n + k - 1) k) as Hdm.
  pose proof (Nat.mod_upper_bound (n + k - 1) k ltac:(lia)). nia.
Qed.

(** X18. For a positive size, line 118 cuts the shuffled positions into
    consecutive shards: put end to end they give the positions back, none
    is empty or longer than the size, and all but the last have exactly
    that size; when the size is the number of positions (what
    [shard_size] 0 stands for) there is one shard, holding them all. *)
Theorem split_shards_partition (Pos : list nat) (n : nat) (size : Z) :
  0 < size → length Pos = n →
  ∃ shards,
    Dataset.split_shards Pos n size = Ok shards ∧
    concat shards = Pos ∧
    (∀ i s, shards !! i = Some s →
       s ≠ [] ∧ Z.of_nat (length s) ≤ size ∧
       ((S i < length shards)%nat → Z.of_nat (length s) = size)) ∧
    (size = Z.of_nat n → shards = [Pos]).
Proof.
  intros Hsize Hlen.
  destruct (split_shards_pos Pos n size Hsize) as (shards & Hsplit & Hconcat);
    [lia|].
  exists shards. split; [done|]. split; [done|].
  revert Hsplit. unfold Dataset.split_shards, py_range_step.
  destruct (Z.eqb_spec size 0) as [|_]; [lia|].
  destruct (Z.ltb_spec size 0) as [|_]; [lia|].
  set (k := Z.to_nat size). set (m := ((n + k - 1) / k)%nat).
  destruct (div_up_bounds n k ltac:(lia)) as [Hlo Hhi]. fold m in Hlo, Hhi.
  intros [=<-]. split.
  - intros i s. rewrite length_fmap, length_fmap, length_seq.
    rewrite <- list_fmap_compose, list_lookup_fmap.
    destruct (seq 0 m !! i) as [j|] eqn:Hj; [|done].
    apply lookup_seq in Hj as [-> Hi]. simpl. intros [=<-].
    rewrite length_take, length_drop, Hlen.
    assert (i * k < n)%nat by nia.
    split; [|split].
    + intros Hnil%(f_equal length).
      rewrite length_take, length_drop, Hlen in Hnil. simpl in Hnil. lia.
    + lia.
    + intros Hnext. assert ((i + 1) * k < n)%nat by nia. lia.
  - intros Hn. assert (k = n) as Hk by lia.
    assert (0 < n)%nat by lia. assert (m = 1%nat) as -> by nia.
    simpl. rewrite drop_0, Hk, take_ge by lia. done.
Qed.

Lemma split_shards_partition_witness :
  ∃ shards,
    Dataset.split_shards [4; 2; 0; 1; 3]%nat 5 2 = Ok shards ∧
    concat shards = [4; 2; 0; 1; 3]%nat ∧
    (∀ i s, shards !! i = Some s →
       s ≠ [] ∧ Z.of_nat (length s) ≤ 2 ∧
       ((S i < length shards)%nat → Z.of_nat (length s) = 2)) ∧
    (2 = Z.of_nat 5 → shards = [[4; 2; 0; 1; 3]%nat]).
Proof.
  apply (split_shards_partition [4; 2; 0; 1; 3]%nat 5 2); [lia|reflexivity].
Defined.

(** ** Dataset: the shape of a yielded value *)

(** X19. A yielded value is a batch that is not empty together with one
    list per side; the list of a side has one id sequence per example of
    the batch, in the batch's order, and the sequence of an example is its
    line between the side's two marker ids, two ids longer than the
    line. *)
Theorem yielded_item_shape
    (ds : Dataset.t) (n_lines : nat)
    (shuffle : nat → list nat → list nat) (argsort : list Z → list nat)
    (batch : list nat) (all : list (list (list Z))) :
  well_formed ds n_lines → valid_policy ds →
  is_shuffle shuffle → is_argsort argsort →
  (batch, all) ∈ (Dataset.iter shuffle argsort ds).1 →
  batch ≠ [] ∧ length all = n_files ds ∧
  ∀ n seqs, all !! n = Some seqs →
    length seqs = length batch ∧
    ∀ k pos, batch !! k = Some pos →
      ∃ ids, seqs !! k = Some ids ∧ ids = wrapped ds n pos ∧
             Z.of_nat (length ids) = len_at ds n pos + 2.
Proof.
  intros Hwf Hvalid Hshuffle Hargsort Hin.
  destruct (iter_saved ds n_lines shuffle argsort) as (yb & e & Hiter & Hsaved);
    try done.
  rewrite Hiter in Hin. simpl in Hin.
  apply list_elem_of_fmap in Hin as (P & [= -> ->] & HP).
  rewrite Forall_forall in Hsaved. destruct (Hsaved P HP) as (Hne & _).
  split; [done|]. split; [by rewrite length_fmap, length_seq|].
  intros n seqs Hn. rewrite list_lookup_fmap in Hn.
  destruct (seq 0 (n_files ds) !! n) as [n'|] eqn:Hn'; [|done].
  apply lookup_seq in Hn' as [-> _]. simpl in Hn. injection Hn as <-.
  split; [by rewrite length_fmap|]. intros k pos Hk.
  exists (wrapped ds n pos). rewrite list_lookup_fmap, Hk.
  split; [done|]. split; [done|].
  unfold wrapped, len_at. rewrite !length_app. simpl. lia.
Qed.

Lemma yielded_item_shape_witness :
  [1; 0]%nat ≠ [] ∧
  length [[[2; 5; 3]; [2; 4; 5; 3]]; [[2; 5; 3]; [2; 4; 5; 3]]] =
    n_files (ds_scenario "tokens" 8) ∧
  ∀ n seqs,
    [[[2; 5; 3]; [2; 4; 5; 3]]; [[2; 5; 3]; [2; 4; 5; 3]]] !! n = Some seqs →
    length seqs = length [1; 0]%nat ∧
    ∀ k pos, [1; 0]%nat !! k = Some pos →
      ∃ ids, seqs !! k = Some ids ∧
             ids = wrapped (ds_scenario "tokens" 8) n pos ∧
             Z.of_nat (length ids) = len_at (ds_scenario "tokens" 8) n pos + 2.
Proof.
  apply (yielded_item_shape (ds_scenario "tokens" 8) 2 shuffle_rev
           argsort_stable [1; 0]%nat
           [[[2; 5; 3]; [2; 4; 5; 3]]; [[2; 5; 3]; [2; 4; 5; 3]]]).
  - apply ds_scenario_wf.
  - by right.
  - apply shuffle_rev_is_shuffle.
  - apply argsort_stable_is_argsort.
  - vm_compute. left.
Defined.

(** ** Dataset: the guard at the head of a pass *)

(** X20. The assertion at the head of [__iter__] looks at the number of
    sides only: on an engine object with no side at all a pass raises
    [Empty dataset]; on an object whose first side has no line, with a
    shard size other than 0, a pass yields nothing and raises nothing. *)
Theorem iter_without_examples
    (shuffle : nat → list nat → list nat) (argsort : list Z → list nat)
    (ds : Dataset.t) :
  (Dataset.File_Line_Idx ds = [] →
   Dataset.iter shuffle argsort ds = ([], Some (AssertionError "Empty dataset"))) ∧
  (∀ sides, Dataset.File_Line_Idx ds = [] :: sides →
            Dataset.shard_size ds ≠ 0 →
            Dataset.iter shuffle argsort ds = ([], None)).
Proof.
  split.
  - intros HF. unfold Dataset.iter. by rewrite HF.
  - intros sides HF Hsize. unfold Dataset.iter. rewrite HF. simpl length.
    unfold Dataset.shard_size_of.
    destruct (Z.eqb_spec (Dataset.shard_size ds) 0) as [|_]; [done|].
    unfold Dataset.split_shards, py_range_step.
    destruct (Z.eqb_spec (Dataset.shard_size ds) 0) as [|_]; [done|].
    destruct (Z.ltb_spec (Dataset.shard_size ds) 0) as [|Hpos]; [done|].
    rewrite Nat.div_small by lia. done.
Qed.

Lemma iter_without_examples_witness :
  Dataset.iter shuffle_id argsort_stable
               (Dataset.mk 0 4096 "tokens" 100 [] [] []) =
    ([], Some (AssertionError "Empty dataset")) ∧
  Dataset.iter shuffle_id argsort_stable ds_no_lines = ([], None).
Proof.
  split.
  - by apply (iter_without_examples shuffle_id argsort_stable
                (Dataset.mk 0 4096 "tokens" 100 [] [] [])).
  - by apply (proj2 (iter_without_examples shuffle_id argsort_stable
                       ds_no_lines) []).
Defined.
